(** * The extraction-to-statement pipeline of the accounting workbench

    A shallow embedding of the deterministic core of the repository:

    - [GeminiService.parseFinancialDocument]: the spreadsheet branch of
      [parseFinancialDocument] after the column mapping has been obtained
      (the "Row Extractor");
    - [GeminiService.classifyAccounts]: the merge of the classification
      answer onto the raw lines (the "Classification Merger");
    - [FinancialWorkspace.groupedFinancials]: grouping, ordering and
      totals (the "Statement Aggregator");
    - [FinancialWorkspace.inconsistencies]: the balance check (the
      "Consistency Checker");
    - [FinancialWorkspace.handleManualEdit], [handleDeleteAccount],
      [handleAddAccount]: the state updaters (the "Line Editor");
    - [GeminiService.cleanJsonString], and the request that
      [classifyAccounts] builds ([accountList], [activeLogic]);
    - [FinancialWorkspace.handleFinancialUpload]: what an import leaves
      behind, given what the two services return;
    - [App.saveClientData], [App.handleCreateClient], and of the client
      list [handleSubmit] and the count of processed files.

    Conventions of the embedding.

    - A JavaScript [number] is modelled by an exact rational ([Q]):
      [parseFloat] gives the number that is written and the operations
      their exact results, where the machine rounds to the nearest double;
      [NaN] appears only as the [None] answer of [JS.parseFloat].  The
      properties of sums therefore follow the additions that the code
      makes, in its order; where a property regroups sums or reads a
      numeral back, its premise keeps to whole numbers up to 2^53, on
      which the machine is exact.
    - A JavaScript string is the [string] of its UTF-8 bytes.
    - [Partial<AccountLine>] has optional fields: [option].
    - A plain object used as a dictionary ([groups], [classificationMap],
      [defaultOrderMap]) is the association list of its own properties in
      the order of their creation.  [Object.keys] lists the keys that are
      array indices first, in ascending numeric order, and the others
      behind in the order of their creation ([Dict.keys]).  A plain object
      inherits the members of [Object.prototype]: for a category of that
      name the grouping throws ([FinancialWorkspace.tryGroups]), and the
      properties of the statement are those of the groupings that
      complete.
    - [crypto.randomUUID()] is a draw from an explicit generator state.
    - [Number::toString] and [String.prototype.localeCompare] depend on the
      binary representation and on the host locale; they are parameters. *)

From Stdlib Require Import ZArith QArith Qabs Qminmax Lia Lqa.
From Stdlib Require Import List Permutation Sorted Bool.
From Stdlib Require Import Ascii String DecimalString DecimalN DecimalPos OrdersEx.
Import ListNotations.

Local Open Scope string_scope.
Local Open Scope Z_scope.

(* ================================================================== *)
(** * Run-time primitives of the language *)
(* ================================================================== *)

Module JS.

(** ** Truthiness and [||] *)

(** [ToBoolean] on a number: only zero is falsy. *)
Definition truthy_num (x : Q) : bool := negb (Qeq_bool x 0).

(** [ToBoolean] on a string: only the empty string is falsy. *)
Definition truthy_str (s : string) : bool := negb (s =? "")%string.

(** [x || d] where [x] is a possibly absent property. *)
Definition or_else {A : Type} (truthy : A -> bool) (x : option A) (d : A) : A :=
  match x with
  | Some v => if truthy v then v else d
  | None => d
  end.

(** [x || d] on numbers, strings and booleans that are present. *)
Definition num_or (x d : Q) : Q := if truthy_num x then x else d.
Definition str_or (s d : string) : string := if truthy_str s then s else d.

(** ** Strings *)

Definition bytes (l : list nat) : string :=
  fold_right (fun n s => String (ascii_of_nat n) s) EmptyString l.

Fixpoint rev_string (acc s : string) : string :=
  match s with
  | EmptyString => acc
  | String c r => rev_string (String c acc) r
  end.

Definition reverse (s : string) : string := rev_string EmptyString s.

(** [strip_prefix p s] is the rest of [s] after the prefix [p]. *)
Fixpoint strip_prefix (p s : string) : option string :=
  match p with
  | EmptyString => Some s
  | String a p' =>
      match s with
      | EmptyString => None
      | String b s' => if Ascii.eqb a b then strip_prefix p' s' else None
      end
  end.

(** The code points of [WhiteSpace] and [LineTerminator], in UTF-8:
    TAB LF VT FF CR SP, U+00A0, U+1680, U+2000..U+200A, U+2028, U+2029,
    U+202F, U+205F, U+3000, U+FEFF. *)
Definition whiteSpace : list string :=
  map bytes
    [ [9]; [10]; [11]; [12]; [13]; [32]; [194; 160]; [225; 154; 128];
      [226; 128; 128]; [226; 128; 129]; [226; 128; 130]; [226; 128; 131];
      [226; 128; 132]; [226; 128; 133]; [226; 128; 134]; [226; 128; 135];
      [226; 128; 136]; [226; 128; 137]; [226; 128; 138];
      [226; 128; 168]; [226; 128; 169]; [226; 128; 175]; [226; 129; 159];
      [227; 128; 128]; [239; 187; 191] ]%nat.

Fixpoint strip_any (ps : list string) (s : string) : option string :=
  match ps with
  | [] => None
  | p :: ps' =>
      match strip_prefix p s with
      | Some r => Some r
      | None => strip_any ps' s
      end
  end.

Fixpoint drop_while_ws (ws : list string) (fuel : nat) (s : string) : string :=
  match fuel with
  | O => s
  | S fuel' =>
      match strip_any ws s with
      | Some r => drop_while_ws ws fuel' r
      | None => s
      end
  end.

Definition trimStart (s : string) : string :=
  drop_while_ws whiteSpace (String.length s) s.

Definition trimEnd (s : string) : string :=
  let r := reverse s in
  reverse (drop_while_ws (map reverse whiteSpace) (String.length r) r).

(** [String.prototype.trim]. *)
Definition trim (s : string) : string := trimEnd (trimStart s).


(** ** Numeric text *)

Definition is_digit (c : ascii) : bool :=
  let n := nat_of_ascii c in ((48 <=? n) && (n <=? 57))%nat.

(** [s.replace(/[^0-9.-]/g, '')]. *)
Fixpoint keep_numeric (s : string) : string :=
  match s with
  | EmptyString => EmptyString
  | String c r =>
      if is_digit c || Ascii.eqb c "." || Ascii.eqb c "-"
      then String c (keep_numeric r)
      else keep_numeric r
  end.

(** The longest run of decimal digits at the head of [s], and the rest. *)
Fixpoint span_digits (s : string) : list Z * string :=
  match s with
  | EmptyString => ([], EmptyString)
  | String c r =>
      if is_digit c
      then let (ds, rest) := span_digits r in
           (Z.of_nat (nat_of_ascii c) - 48 :: ds, rest)
      else ([], s)
  end.

Definition digits_value (ds : list Z) : Z :=
  fold_left (fun acc d => 10 * acc + d) ds 0.

(** [parseFloat] on a text over the alphabet that [keep_numeric] leaves
    (digits, ['.'] and ['-']).  On that alphabet [StrDecimalLiteral] is an
    optional ['-'] followed by [digits], [digits . digits?] or
    [. digits]; the longest such prefix is read, and [None] stands for
    [NaN] (no such prefix).  The answer is the number that the prefix
    writes; the machine answers the double nearest to it, which is that
    number when it is a whole number up to 2^53. *)
Definition parseFloat (s : string) : option Q :=
  let (neg, body) :=
    match s with
    | String "-" r => (true, r)
    | _ => (false, s)
    end in
  let (ip, rest) := span_digits body in
  let fp :=
    match rest with
    | String "." r => fst (span_digits r)
    | _ => []
    end in
  match ip, fp with
  | [], [] => None
  | _, _ =>
      let m := digits_value (ip ++ fp) in
      let q := Qmake m (Z.to_pos (10 ^ Z.of_nat (List.length fp))) in
      Some (if neg then Qopp q else q)
  end.

(** [parseFloat(s) || 0]. *)
Definition parseFloat_or_0 (s : string) : Q :=
  or_else truthy_num (parseFloat s) 0%Q.

(** Decimal numeral of a natural number. *)
Definition decimal (n : Z) : string :=
  NilZero.string_of_uint (N.to_uint (Z.to_N n)).

Fixpoint zeros (n : nat) : string :=
  match n with
  | O => EmptyString
  | S n' => String "0" (zeros n')
  end.

Section ToFixed.

(** [Number::toString], used by [toFixed] from [10^21] upwards. *)
Variable Number_toString : Q -> string.

(** [Number.prototype.toFixed(f)]: the sign is split off, the magnitude
    is scaled by [10^f] and rounded to the nearest integer, the larger
    one on a tie, and the numeral is padded to [f + 1] digits. *)
Definition toFixed (x : Q) (f : nat) : string :=
  let s := if Qlt_le_dec x 0 then "-" else "" in
  let a := Qabs x in
  if Qle_bool (inject_Z (10 ^ 21)) a then s ++ Number_toString a
  else
    let scale := 10 ^ Z.of_nat f in
    let n := (2 * Qnum a * scale + Zpos (Qden a)) / (2 * Zpos (Qden a)) in
    let m := decimal n in
    let m := zeros (S f - String.length m) ++ m in
    let k := String.length m in
    match f with
    | O => s ++ m
    | _ => s ++ substring 0 (k - f) m ++ "." ++ substring (k - f) f m
    end.

End ToFixed.

(** ** [Array.prototype.sort]

    The sort is stable, and for a consistent comparator its result is the
    one stable sorted arrangement of the array; straight insertion computes
    it.  The comparator answers a number whose sign is all that counts. *)

Section Sort.

Context {A : Type}.
Variable comparefn : A -> A -> Z.

Fixpoint insert (x : A) (l : list A) : list A :=
  match l with
  | [] => [x]
  | y :: l' => if comparefn x y <=? 0 then x :: l else y :: insert x l'
  end.

Definition sort (l : list A) : list A := fold_right insert [] l.

End Sort.

(** ** [String.prototype.length]

    The number of UTF-16 code units of a text given by its UTF-8 bytes: a
    continuation byte counts for nothing, the first byte of a four-byte
    sequence for two (a surrogate pair), any other byte for one. *)
Fixpoint length (s : string) : nat :=
  match s with
  | EmptyString => O
  | String c r =>
      let n := nat_of_ascii c in
      ((if (128 <=? n) && (n <? 192) then 0
        else if 240 <=? n then 2 else 1) + length r)%nat
  end.

(** ** [String.prototype.replace] with a global pattern of plain text

    The text is gone through from the left; where the pattern starts it
    is left out and the scan goes on behind it.  [skip] counts the
    characters of a match that are still to be left out. *)
Fixpoint replaceAll_from (pattern : string) (skip : nat) (s : string) : string :=
  match s with
  | EmptyString => EmptyString
  | String c r =>
      match skip with
      | S k => replaceAll_from pattern k r
      | O =>
          match pattern with
          | EmptyString => String c (replaceAll_from pattern 0 r)
          | String _ _ =>
              if String.prefix pattern s
              then replaceAll_from pattern (String.length pattern - 1) r
              else String c (replaceAll_from pattern 0 r)
          end
      end
  end.

(** [s.replace(/pattern/g, '')] for a pattern without special characters. *)
Definition removeAll (pattern s : string) : string :=
  replaceAll_from pattern 0 s.

End JS.


(* ================================================================== *)
(** * Plain objects used as dictionaries *)
(* ================================================================== *)

Module Dict.

Section Dict.

Context {K V : Type}.
Variable eqb : K -> K -> bool.

Definition t := list (K * V).

(** [o[k]]: [None] is [undefined]. *)
Fixpoint get (o : t) (k : K) : option V :=
  match o with
  | [] => None
  | (k', v) :: o' => if eqb k' k then Some v else get o' k
  end.

(** [o[k] = v]: an existing property keeps its place, a new one is
    appended. *)
Fixpoint set (o : t) (k : K) (v : V) : t :=
  match o with
  | [] => [(k, v)]
  | (k', v') :: o' =>
      if eqb k' k then (k', v) :: o' else (k', v') :: set o' k v
  end.

(** The own keys of [o], in the order in which they were created. *)
Definition created (o : t) : list K := map fst o.

End Dict.

(** The names of the members of [Object.prototype].  A plain object
    inherits them: for such a key [o[k]] reads the inherited member when
    [o] has no own property of that name.  [get] reads own properties
    only, which is all that [o[k]] does for any other key. *)
Definition prototypeMembers : list string :=
  [ "constructor"; "__defineGetter__"; "__defineSetter__"; "hasOwnProperty";
    "__lookupGetter__"; "__lookupSetter__"; "isPrototypeOf";
    "propertyIsEnumerable"; "toString"; "valueOf"; "__proto__";
    "toLocaleString" ].

Definition inherited (k : string) : bool :=
  existsb (String.eqb k) prototypeMembers.

(** An array index: the key is the canonical numeral (no sign, no leading
    zero) of an integer from 0 to 2^32 - 2. *)
Definition arrayIndex (k : string) : option Z :=
  let n := JS.digits_value (fst (JS.span_digits k)) in
  if (JS.decimal n =? k)%string && (n <=? 4294967294) then Some n else None.

Definition isArrayIndex (k : string) : bool :=
  match arrayIndex k with
  | Some _ => true
  | None => false
  end.

Definition indexOf (k : string) : Z :=
  match arrayIndex k with
  | Some n => n
  | None => 0
  end.

(** The order in which the own string keys of an object are listed: the
    array indices first, in ascending numeric order, then the other keys
    in the order in which they were created. *)
Definition keyOrder (own : list string) : list string :=
  (JS.sort (fun a b => indexOf a - indexOf b) (filter isArrayIndex own)
   ++ filter (fun k => negb (isArrayIndex k)) own)%list.

(** [Object.keys(o)]. *)
Definition keys {V : Type} (o : t (K := string) (V := V)) : list string :=
  keyOrder (created o).

End Dict.

(* ================================================================== *)
(** * types.ts *)
(* ================================================================== *)

(** [enum AccountType]: a string enum, so a value of the type is its string
    at run time ([classifyAccounts] casts the classifier's answer to it
    unchecked). *)
Definition AccountType := string.

Module AccountType.
Definition ASSET : AccountType := "ACTIVO".
Definition LIABILITY : AccountType := "PASIVO".
Definition EQUITY : AccountType := "PATRIMONIO_NETO".
Definition REVENUE : AccountType := "INGRESOS".
Definition EXPENSE : AccountType := "EGRESOS".
Definition UNCLASSIFIED : AccountType := "SIN_CLASIFICAR".
End AccountType.

Module AccountLine.
Record t : Type := mk {
  id : string;
  code : string;
  name : string;
  debit : Q;
  credit : Q;
  balance : Q;
  type : AccountType;
  category : string;
  isGroup : bool;
  manualOverride : bool
}.
End AccountLine.

(** [Partial<AccountLine>], restricted to the properties that are read. *)
Module Partial.
Record t : Type := mk {
  code : option string;
  name : option string;
  debit : option Q;
  credit : option Q;
  balance : option Q
}.
End Partial.

Inductive Severity : Type := high | medium | low.

Module Inconsistency.
Record t : Type := mk {
  id : string;
  severity : Severity;
  message : string;
  relatedAccountIds : list string
}.
End Inconsistency.

(** An entry of [ClientData.files]. *)
Module ClientFile.
Record t : Type := mk {
  name : string;
  date : string;
  type : string
}.
End ClientFile.

Module ClientData.
Record t : Type := mk {
  id : string;
  name : string;
  cuit : string;
  industry : string;
  lastUpdated : string;
  accounts : list AccountLine.t;
  files : list ClientFile.t;
  notes : list string;
  customRegulations : option string
}.
End ClientData.

(* ================================================================== *)
(** * services/geminiService.ts *)
(* ================================================================== *)

Module GeminiService.

(** ** [parseFinancialDocument], spreadsheet branch *)

(** A cell of [sheet_to_json(worksheet, { header: 1 })]. *)
Inductive cell : Type :=
| Undefined
| Null
| Bool (b : bool)
| Num (x : Q)
| Str (s : string).

(** [undefined] stands for a hole of the array of rows. *)
Definition row : Type := option (list cell).

(** The answer of the column-mapping request; [-1] is "not found". *)
Record ColumnMapping : Type := {
  codeIndex : Z;
  nameIndex : Z;
  debitIndex : Z;
  creditIndex : Z;
  balanceIndex : Z;
  startRow : Z
}.

Definition truthy_cell (c : cell) : bool :=
  match c with
  | Undefined | Null => false
  | Bool b => b
  | Num x => JS.truthy_num x
  | Str s => JS.truthy_str s
  end.

(** [r[i]]; reading outside the array gives [undefined]. *)
Definition at_index (r : list cell) (i : Z) : cell :=
  if i <? 0 then Undefined else nth (Z.to_nat i) r Undefined.

Section Extract.

Variable Number_toString : Q -> string.

(** [String(c)]. *)
Definition String_ (c : cell) : string :=
  match c with
  | Undefined => "undefined"
  | Null => "null"
  | Bool true => "true"
  | Bool false => "false"
  | Num x => Number_toString x
  | Str s => s
  end.

(** [String(c || '')]. *)
Definition String_or_empty (c : cell) : string :=
  if truthy_cell c then String_ c else "".

(** [parseFloat(String(c).replace(/[^0-9.-]/g, '')) || 0]. *)
Definition parseNumber (c : cell) : Q :=
  JS.parseFloat_or_0 (JS.keep_numeric (String_ c)).

Variable mapping : ColumnMapping.

(** [mapping.nameIndex > -1 ? String(row[mapping.nameIndex] || '').trim() : '']. *)
Definition rowName (r : list cell) : string :=
  if -1 <? nameIndex mapping
  then JS.trim (String_or_empty (at_index r (nameIndex mapping)))
  else "".

Definition rowCode (r : list cell) : string :=
  if -1 <? codeIndex mapping
  then String_or_empty (at_index r (codeIndex mapping))
  else "".

(** The three numeric fields of a row, as [(debit, credit, balance)]. *)
Definition rowAmounts (r : list cell) : Q * Q * Q :=
  if (-1 <? debitIndex mapping) && (-1 <? creditIndex mapping) then
    let debit := parseNumber (at_index r (debitIndex mapping)) in
    let credit := parseNumber (at_index r (creditIndex mapping)) in
    (debit, credit, (debit - credit)%Q)
  else if -1 <? balanceIndex mapping then
    let balance := parseNumber (at_index r (balanceIndex mapping)) in
    if Qlt_le_dec 0 balance
    then (balance, 0%Q, balance)
    else (0%Q, Qabs balance, balance)
  else (0%Q, 0%Q, 0%Q).

(** One turn of the loop: [None] when the turn ends in [continue]. *)
Definition extractRow (r : row) : option Partial.t :=
  match r with
  | None => None
  | Some [] => None
  | Some cells =>
      let name := rowName cells in
      if JS.truthy_str name then
        let code := rowCode cells in
        let '(debit, credit, balance) := rowAmounts cells in
        Some (Partial.mk (Some code) (Some name)
                         (Some debit) (Some credit) (Some balance))
      else None
  end.

(** The loop over the rows, pushing onto [extractedLines]. *)
Fixpoint extractLoop (rows : list row) (extractedLines : list Partial.t)
  : list Partial.t :=
  match rows with
  | [] => extractedLines
  | r :: rest =>
      match extractRow r with
      | Some line => extractLoop rest (extractedLines ++ [line])
      | None => extractLoop rest extractedLines
      end
  end.

(** [for (let i = (mapping.startRow || 0); i < rows.length; i++)]: a
    negative start only visits indices that hold no row. *)
Definition parseFinancialDocument (rows : list row) : list Partial.t :=
  extractLoop (skipn (Z.to_nat (startRow mapping)) rows) [].

End Extract.

(** ** [classifyAccounts] *)

(** One object of the classifier's JSON answer. *)
Record ClassificationItem : Type := {
  item_id : Z;
  item_type : string;
  item_category : string;
  item_isGroup : bool
}.

Record Classification : Type := {
  type : string;
  category : string;
  isGroup : bool
}.

(** [result.forEach(item => classificationMap[item.id] = {...})]. *)
Definition classificationMap (result : list ClassificationItem)
  : Dict.t (K := Z) (V := Classification) :=
  fold_left
    (fun m item =>
       Dict.set Z.eqb m (item_id item)
         {| type := item_type item;
            category := JS.str_or (item_category item) "Otros";
            isGroup := item_isGroup item |})
    result [].

Section Classify.

(** [crypto.randomUUID()] draws from the generator state. *)
Variable G : Type.
Variable randomUUID : G -> string * G.

Definition classified (m : Dict.t (K := Z) (V := Classification))
           (acc : Partial.t) (index : Z) (uuid : string) : AccountLine.t :=
  let c := Dict.get Z.eqb m index in
  {| AccountLine.id := uuid;
     AccountLine.code := JS.or_else JS.truthy_str (Partial.code acc) "";
     AccountLine.name :=
       JS.or_else JS.truthy_str (Partial.name acc) "Cuenta Desconocida";
     AccountLine.debit := JS.or_else JS.truthy_num (Partial.debit acc) 0%Q;
     AccountLine.credit := JS.or_else JS.truthy_num (Partial.credit acc) 0%Q;
     AccountLine.balance :=
       JS.or_else JS.truthy_num (Partial.balance acc)
         (JS.or_else JS.truthy_num (Partial.debit acc) 0
          - JS.or_else JS.truthy_num (Partial.credit acc) 0)%Q;
     AccountLine.type :=
       JS.or_else JS.truthy_str (option_map type c) AccountType.UNCLASSIFIED;
     AccountLine.category :=
       JS.or_else JS.truthy_str (option_map category c) "Sin Clasificar";
     AccountLine.isGroup :=
       JS.or_else (fun b : bool => b) (option_map isGroup c) false;
     AccountLine.manualOverride := false |}.

(** The lines of the [catch] branch. *)
Definition unclassified (acc : Partial.t) (uuid : string) : AccountLine.t :=
  {| AccountLine.id := uuid;
     AccountLine.code := JS.or_else JS.truthy_str (Partial.code acc) "";
     AccountLine.name :=
       JS.or_else JS.truthy_str (Partial.name acc) "Error Clasificación";
     AccountLine.debit := JS.or_else JS.truthy_num (Partial.debit acc) 0%Q;
     AccountLine.credit := JS.or_else JS.truthy_num (Partial.credit acc) 0%Q;
     AccountLine.balance := JS.or_else JS.truthy_num (Partial.balance acc) 0%Q;
     AccountLine.type := AccountType.UNCLASSIFIED;
     AccountLine.category := "Error";
     AccountLine.isGroup := false;
     AccountLine.manualOverride := false |}.

(** [accounts.map((acc, index) => ...)], one draw per line, in order. *)
Fixpoint mapWithUUID (f : Partial.t -> Z -> string -> AccountLine.t)
         (accounts : list Partial.t) (index : Z) (g : G)
  : list AccountLine.t * G :=
  match accounts with
  | [] => ([], g)
  | acc :: rest =>
      let (uuid, g1) := randomUUID g in
      let (lines, g2) := mapWithUUID f rest (index + 1) g1 in
      (f acc index uuid :: lines, g2)
  end.

(** [response] is the parsed answer of the classifier; [None] when the
    request or the parse throws, which leads to the [catch] branch. *)
Definition classifyAccounts (accounts : list Partial.t)
           (response : option (list ClassificationItem)) (g : G)
  : list AccountLine.t * G :=
  match response with
  | Some result =>
      mapWithUUID (classified (classificationMap result)) accounts 0 g
  | None =>
      mapWithUUID (fun acc _ uuid => unclassified acc uuid) accounts 0 g
  end.

(** The first [n] draws from [g]. *)
Fixpoint draws (n : nat) (g : G) : list string :=
  match n with
  | O => []
  | S n' => let (uuid, g1) := randomUUID g in uuid :: draws n' g1
  end.

End Classify.

(** ** [cleanJsonString] *)

(** [str.replace(/```json/g, '').replace(/```/g, '').trim()]. *)
Definition cleanJsonString (str : string) : string :=
  JS.trim (JS.removeAll "```" (JS.removeAll "```json" str)).

(** ** [classifyAccounts]: what the classifier is asked *)

(** One object of [accountList]. *)
Record AccountSummary : Type := {
  summary_id : Z;
  summary_name : option string;
  summary_code : option string;
  summary_balance : option Q
}.

(** [l.map((a, i) => f(a, i))], counting from [i]. *)
Fixpoint mapIndexed {A B : Type} (f : A -> Z -> B) (i : Z) (l : list A) : list B :=
  match l with
  | [] => []
  | a :: rest => f a i :: mapIndexed f (i + 1) rest
  end.

(** [accounts.slice(0, 500).map((a, i) => ({ id: i, name: a.name, code: a.code,
    balance: a.balance }))]. *)
Definition accountList (accounts : list Partial.t) : list AccountSummary :=
  mapIndexed
    (fun a i => {| summary_id := i;
                   summary_name := Partial.name a;
                   summary_code := Partial.code a;
                   summary_balance := Partial.balance a |})
    0 (firstn 500 accounts).

(** The rules spliced into the request: the template that is chosen and
    the text it quotes. *)
Inductive Logic : Type :=
| defaultLogic
| globalStandardLogic (globalStandard : string)
| customRegulationsLogic (customRegulations : string).

(** [s && s.length > 10] for an optional text. *)
Definition longer_than_10 (s : option string) : bool :=
  match s with
  | Some t => JS.truthy_str t && (10 <? JS.length t)%nat
  | None => false
  end.

(** The two [if]s that overwrite [activeLogic], in their order. *)
Definition activeLogic (customRegulations globalStandard : option string) : Logic :=
  let activeLogic := defaultLogic in
  let activeLogic :=
    if longer_than_10 globalStandard
    then match globalStandard with
         | Some t => globalStandardLogic t
         | None => activeLogic
         end
    else activeLogic in
  if longer_than_10 customRegulations
  then match customRegulations with
       | Some t => customRegulationsLogic t
       | None => activeLogic
       end
  else activeLogic.

End GeminiService.

(* ================================================================== *)
(** * components/FinancialWorkspace.tsx *)
(* ================================================================== *)

Module FinancialWorkspace.

(** One category ("rubro") of a section of the statement. *)
Module Group.
Record t : Type := mk {
  name : string;
  accounts : list AccountLine.t;
  total : Q
}.
End Group.

(** The value of [groupedFinancials]. *)
Record Statement : Type := {
  assets : list Group.t;
  assetsTotal : Q;
  liabilities : list Group.t;
  liabilitiesTotal : Q;
  equity : list Group.t;
  equityTotal : Q;
  revenue : list Group.t;
  revenueTotal : Q;
  expenses : list Group.t;
  expenseTotal : Q;
  netResult : Q
}.

(** Default order map (CNV). *)
Definition defaultOrderMap : Dict.t (K := string) (V := Z) :=
  [ ("Caja y Bancos", 1); ("Inversiones", 2); ("Créditos por Ventas", 3);
    ("Otros Créditos", 4); ("Bienes de Cambio", 5); ("Bienes de Uso", 6);
    ("Activos Intangibles", 7);
    ("Deudas Comerciales", 1); ("Deudas Bancarias", 2);
    ("Deudas Sociales y Fiscales", 3); ("Otras Deudas", 4);
    ("Previsiones", 5);
    ("Capital Social", 1); ("Reservas", 2); ("Resultados Acumulados", 3) ].

(** Truthiness of [defaultOrderMap[a]]. *)
Definition truthy_order (o : option Z) : bool :=
  match o with
  | Some n => negb (n =? 0)
  | None => false
  end.

Definition order_or (o : option Z) (d : Z) : Z :=
  if truthy_order o then match o with Some n => n | None => d end else d.

(** [a.reduce((s, x) => s + f(x), 0)]: the additions from 0, in the order
    of the array.  Each [+] is the exact sum, where the machine rounds it
    to the nearest double. *)
Definition sum_by {A : Type} (f : A -> Q) (l : list A) : Q :=
  fold_left (fun s x => (s + f x)%Q) l 0%Q.

Section Component.

(** [String.prototype.localeCompare] of the host. *)
Variable localeCompare : string -> string -> Z.

(** [Number::toString] of the host. *)
Variable Number_toString : Q -> string.

(** The props [client.customRegulations] and [globalModel]. *)
Variable customRegulations : option string.
Variable globalModel : option string.

(** [client.customRegulations || (globalModel && globalModel.length > 0)]. *)
Definition hasCustomModel : bool :=
  match customRegulations with
  | Some s => JS.truthy_str s
  | None => false
  end
  ||
  match globalModel with
  | Some s => JS.truthy_str s && (0 <? Z.of_nat (String.length s))
  | None => false
  end.

(** The comparator handed to [sort].  It is called on keys of [groups],
    none of which names a member of [Object.prototype], so that
    [defaultOrderMap[a]] reads an own property or [undefined]. *)
Definition compareCategories (a b : string) : Z :=
  if hasCustomModel then
    let orderA := Dict.get String.eqb defaultOrderMap a in
    let orderB := Dict.get String.eqb defaultOrderMap b in
    if truthy_order orderA && truthy_order orderB
    then order_or orderA 0 - order_or orderB 0
    else if truthy_order orderA then -1
    else if truthy_order orderB then 1
    else localeCompare a b
  else
    let orderA := order_or (Dict.get String.eqb defaultOrderMap a) 99 in
    let orderB := order_or (Dict.get String.eqb defaultOrderMap b) 99 in
    orderA - orderB.

Section Grouping.

Variable accounts : list AccountLine.t.

(** [accounts.filter(a => a.type === type && !a.isGroup)]. *)
Definition filtered (type : AccountType) : list AccountLine.t :=
  filter (fun a => (AccountLine.type a =? type)%string
                   && negb (AccountLine.isGroup a)) accounts.

(** The body of the [forEach] that fills [groups], as it runs on a plain
    object.  [groups[cat]] is truthy when [groups] has the property (an
    array) and also when [cat] names a member of [Object.prototype], which
    [groups] inherits; in the second case no array is created and
    [groups[cat].push] throws a [TypeError], for which [None] stands. *)
Definition tryAddToGroup (groups : Dict.t (K := string) (V := list AccountLine.t))
           (acc : AccountLine.t) : option Dict.t :=
  let cat := JS.str_or (AccountLine.category acc) "Otros" in
  let truthy :=
    match Dict.get String.eqb groups cat with
    | Some _ => true
    | None => Dict.inherited cat
    end in
  let groups := if truthy then groups else Dict.set String.eqb groups cat [] in
  match Dict.get String.eqb groups cat with
  | Some members => Some (Dict.set String.eqb groups cat (members ++ [acc])%list)
  | None => None
  end.

(** The [forEach] over the lines of the section; [None] when it throws. *)
Definition tryGroups (type : AccountType) : option Dict.t :=
  fold_left (fun o acc => match o with
                          | Some groups => tryAddToGroup groups acc
                          | None => None
                          end)
            (filtered type) (Some []).

(** The grouping of the section completes: the [forEach] does not throw.
    Nothing else in [groupByTypeAndCategory] can. *)
Definition completes (type : AccountType) : bool :=
  match tryGroups type with
  | Some _ => true
  | None => false
  end.

(** What the body of the [forEach] leaves when it does not throw. *)
Definition addToGroup (groups : Dict.t (K := string) (V := list AccountLine.t))
           (acc : AccountLine.t) : Dict.t :=
  let cat := JS.str_or (AccountLine.category acc) "Otros" in
  let groups :=
    match Dict.get String.eqb groups cat with
    | None => Dict.set String.eqb groups cat []
    | Some _ => groups
    end in
  match Dict.get String.eqb groups cat with
  | Some members => Dict.set String.eqb groups cat (members ++ [acc])%list
  | None => groups
  end.

(** The [groups] of a [forEach] that completes; what follows is computed
    from them. *)
Definition groups (type : AccountType) : Dict.t :=
  fold_left addToGroup (filtered type) [].

Definition sortedCategories (type : AccountType) : list string :=
  JS.sort compareCategories (Dict.keys (groups type)).

Definition groupOf (type : AccountType) (cat : string) : Group.t :=
  let members :=
    match Dict.get String.eqb (groups type) cat with
    | Some members => members
    | None => []
    end in
  {| Group.name := cat;
     Group.accounts := members;
     Group.total := sum_by AccountLine.balance members |}.

Definition groupByTypeAndCategory (type : AccountType) : list Group.t :=
  map (groupOf type) (sortedCategories type).

Definition groupedFinancials : Statement :=
  let assets := groupByTypeAndCategory AccountType.ASSET in
  let liabilities := groupByTypeAndCategory AccountType.LIABILITY in
  let equity := groupByTypeAndCategory AccountType.EQUITY in
  let revenue := groupByTypeAndCategory AccountType.REVENUE in
  let expenses := groupByTypeAndCategory AccountType.EXPENSE in
  let assetsTotal := sum_by Group.total assets in
  let liabilitiesTotal := sum_by Group.total liabilities in
  let equityTotal := sum_by Group.total equity in
  let revenueTotal := sum_by Group.total revenue in
  let expenseTotal := sum_by Group.total expenses in
  {| assets := assets; assetsTotal := assetsTotal;
     liabilities := liabilities; liabilitiesTotal := liabilitiesTotal;
     equity := equity; equityTotal := equityTotal;
     revenue := revenue; revenueTotal := revenueTotal;
     expenses := expenses; expenseTotal := expenseTotal;
     netResult := (Qabs revenueTotal - Qabs expenseTotal)%Q |}.

(** [groupedFinancials] completes when its five groupings do. *)
Definition groupedFinancialsCompletes : bool :=
  completes AccountType.ASSET && completes AccountType.LIABILITY
  && completes AccountType.EQUITY && completes AccountType.REVENUE
  && completes AccountType.EXPENSE.

(** ** Inconsistency detection *)

Definition grandTotal : Q :=
  sum_by AccountLine.balance
    (filter (fun a => negb (AccountLine.isGroup a)) accounts).

Definition inconsistencies : list Inconsistency.t :=
  if Qlt_le_dec 1 (Qabs grandTotal) then
    [ {| Inconsistency.id := "diff-balance";
         Inconsistency.severity := high;
         Inconsistency.message :=
           "El balance no da cero (Diferencia: "
           ++ JS.toFixed Number_toString grandTotal 2
           ++ "). Revisar asientos.";
         Inconsistency.relatedAccountIds := [] |} ]
  else [].

End Grouping.

End Component.

(** ** Manual editing: the updaters handed to [setAccounts] *)

Section AddAccount.

Variable G : Type.
Variable randomUUID : G -> string * G.

Definition handleAddAccount (prev : list AccountLine.t) (g : G)
  : list AccountLine.t * G :=
  let (uuid, g1) := randomUUID g in
  let newAccount :=
    {| AccountLine.id := uuid;
       AccountLine.code := "";
       AccountLine.name := "Nueva Cuenta";
       AccountLine.debit := 0%Q;
       AccountLine.credit := 0%Q;
       AccountLine.balance := 0%Q;
       AccountLine.type := AccountType.UNCLASSIFIED;
       AccountLine.category := "Otros";
       AccountLine.isGroup := false;
       AccountLine.manualOverride := true |} in
  (newAccount :: prev, g1).

End AddAccount.

(** [prev.filter(a => a.id !== id)]. *)
Definition deleteLine (id : string) (prev : list AccountLine.t)
  : list AccountLine.t :=
  filter (fun a => negb (AccountLine.id a =? id)%string) prev.

(** [confirmed] is the answer of [window.confirm]. *)
Definition handleDeleteAccount (confirmed : bool) (id : string)
           (prev : list AccountLine.t) : list AccountLine.t :=
  if confirmed then deleteLine id prev else prev.

(** [field] together with [value]: the key of [AccountLine] that is
    written and what is written there. *)
Inductive FieldValue : Type :=
| f_id (value : string)
| f_code (value : string)
| f_name (value : string)
| f_debit (value : Q)
| f_credit (value : Q)
| f_balance (value : Q)
| f_type (value : AccountType)
| f_category (value : string)
| f_isGroup (value : bool)
| f_manualOverride (value : bool).

(** [{ ...acc, [field]: value }]. *)
Definition assign (acc : AccountLine.t) (fv : FieldValue) : AccountLine.t :=
  let '(AccountLine.mk i c n d cr b t cat g m) := acc in
  match fv with
  | f_id v => AccountLine.mk v c n d cr b t cat g m
  | f_code v => AccountLine.mk i v n d cr b t cat g m
  | f_name v => AccountLine.mk i c v d cr b t cat g m
  | f_debit v => AccountLine.mk i c n v cr b t cat g m
  | f_credit v => AccountLine.mk i c n d v b t cat g m
  | f_balance v => AccountLine.mk i c n d cr v t cat g m
  | f_type v => AccountLine.mk i c n d cr b v cat g m
  | f_category v => AccountLine.mk i c n d cr b t v g m
  | f_isGroup v => AccountLine.mk i c n d cr b t cat v m
  | f_manualOverride v => AccountLine.mk i c n d cr b t cat g v
  end.

Definition with_manualOverride (acc : AccountLine.t) (v : bool) : AccountLine.t :=
  assign acc (f_manualOverride v).

Definition with_balance (acc : AccountLine.t) (v : Q) : AccountLine.t :=
  assign acc (f_balance v).

(** The object built for the line whose id matches. *)
Definition edited (acc : AccountLine.t) (fv : FieldValue) : AccountLine.t :=
  let updated := with_manualOverride (assign acc fv) true in
  match fv with
  | f_debit value =>
      let d := value in
      let c := JS.num_or (AccountLine.credit updated) 0 in
      with_balance updated (d - c)%Q
  | f_credit value =>
      let d := JS.num_or (AccountLine.debit updated) 0 in
      let c := value in
      with_balance updated (d - c)%Q
  | _ => updated
  end.

(** [prev.map(acc => acc.id === id ? updated : acc)]. *)
Definition handleManualEdit (id : string) (fv : FieldValue)
           (prev : list AccountLine.t) : list AccountLine.t :=
  map (fun acc => if (AccountLine.id acc =? id)%string then edited acc fv else acc)
      prev.

(** ** File handling: [handleFinancialUpload] *)

(** What the handler leaves behind: the [accounts] of the component, the
    client handed to [onSave] if any, and the text of the [alert] if any. *)
Record UploadOutcome : Type := {
  nextAccounts : list AccountLine.t;
  saved : option ClientData.t;
  alerted : option string
}.

Section Upload.

Variable G : Type.
Variable randomUUID : G -> string * G.

(** [parsed] is what [parseFinancialDocument] returns, [None] when it
    throws; [response] is the classifier's answer as in [classifyAccounts];
    [now1] and [now2] are the two readings of the clock. *)
Definition handleFinancialUpload
           (client : ClientData.t) (accounts : list AccountLine.t)
           (fileName fileType now1 now2 : string)
           (parsed : option (list Partial.t))
           (response : option (list GeminiService.ClassificationItem)) (g : G)
  : UploadOutcome * G :=
  match parsed with
  | None =>
      ({| nextAccounts := accounts; saved := None;
          alerted := Some ("Error al procesar el archivo: "
                           ++ "No se pudo procesar el archivo. Verifique el formato.") |},
       g)
  | Some rawAccounts =>
      if (List.length rawAccounts =? 0)%nat then
        ({| nextAccounts := accounts; saved := None;
            alerted := Some ("Error al procesar el archivo: "
                             ++ "No se encontraron cuentas en el archivo. Verifique el formato.") |},
         g)
      else
        let (classifiedAccounts, g1) :=
          GeminiService.classifyAccounts G randomUUID rawAccounts response g in
        let updatedClient :=
          {| ClientData.id := ClientData.id client;
             ClientData.name := ClientData.name client;
             ClientData.cuit := ClientData.cuit client;
             ClientData.industry := ClientData.industry client;
             ClientData.lastUpdated := now2;
             ClientData.accounts := classifiedAccounts;
             ClientData.files :=
               (ClientData.files client
                ++ [ClientFile.mk fileName now1 fileType])%list;
             ClientData.notes := ClientData.notes client;
             ClientData.customRegulations := ClientData.customRegulations client |} in
        ({| nextAccounts := classifiedAccounts; saved := Some updatedClient;
            alerted := None |},
         g1)
  end.

End Upload.

End FinancialWorkspace.

(* ================================================================== *)
(** * App.tsx and components/ClientList.tsx *)
(* ================================================================== *)

Module App.

(** [clients.map(c => c.id === updatedClient.id ? updatedClient : c)]
    together with the new [activeClient]. *)
Definition saveClientData (clients : list ClientData.t)
           (updatedClient : ClientData.t) : list ClientData.t * ClientData.t :=
  (map (fun c => if (ClientData.id c =? ClientData.id updatedClient)%string
                 then updatedClient else c) clients,
   updatedClient).

Section Create.

Variable G : Type.
Variable randomUUID : G -> string * G.

(** The new [clients] and the new [activeClient]. *)
Definition handleCreateClient (clients : list ClientData.t)
           (name cuit industry now : string) (g : G)
  : (list ClientData.t * ClientData.t) * G :=
  let (uuid, g1) := randomUUID g in
  let newClient :=
    {| ClientData.id := uuid;
       ClientData.name := name;
       ClientData.cuit := cuit;
       ClientData.industry := industry;
       ClientData.lastUpdated := now;
       ClientData.accounts := [];
       ClientData.files := [];
       ClientData.notes := [];
       ClientData.customRegulations := None |} in
  ((clients ++ [newClient])%list, newClient, g1).

(** [ClientList.handleSubmit]: the form creates a client when the name is
    not empty; [None] when nothing happens. *)
Definition handleSubmit (clients : list ClientData.t)
           (name cuit industry now : string) (g : G)
  : option ((list ClientData.t * ClientData.t) * G) :=
  if JS.truthy_str name
  then Some (handleCreateClient clients name cuit industry now g)
  else None.

End Create.

(** [clients.reduce((acc, c) => acc + c.files.length, 0)]. *)
Definition processedFiles (clients : list ClientData.t) : nat :=
  fold_left (fun acc c => (acc + List.length (ClientData.files c))%nat) clients 0%nat.

End App.

Import GeminiService FinancialWorkspace.

(* ================================================================== *)
(** * Vocabulary of the properties *)
(* ================================================================== *)

(** ** Comparators *)

(** A consistent comparator: [cmp a b <= 0] is a total preorder. *)
Definition consistent {A : Type} (cmp : A -> A -> Z) : Prop :=
  (forall a b, 0 < cmp a b -> cmp b a <= 0) /\
  (forall a b c, cmp a b <= 0 -> cmp b c <= 0 -> cmp a c <= 0).

(** [a] may stand before [b]. *)
Definition precedes {A : Type} (cmp : A -> A -> Z) (a b : A) : Prop :=
  cmp a b <= 0.

(** [a] and [z] compare as equal. *)
Definition tied {A : Type} (cmp : A -> A -> Z) (z a : A) : bool :=
  (cmp a z <=? 0) && (cmp z a <=? 0).

(** ** Grouping *)

Definition keyed {A : Type} (key : A -> string) (k : string) (a : A) : bool :=
  (key a =? k)%string.

(** The category a line is filed under: [acc.category || 'Otros']. *)
Definition categoryOf (acc : AccountLine.t) : string :=
  JS.str_or (AccountLine.category acc) "Otros".

Definition in_category : string -> AccountLine.t -> bool := keyed categoryOf.

(** Categories in the order in which the lines bring them up. *)
Definition discover (seen : list string) (acc : AccountLine.t) : list string :=
  if existsb (String.eqb (categoryOf acc)) seen
  then seen else (seen ++ [categoryOf acc])%list.

Definition discovered (l : list AccountLine.t) : list string :=
  fold_left discover l [].

(** The sections the statement is made of. *)
Definition statementSections : list AccountType :=
  [ AccountType.ASSET; AccountType.LIABILITY; AccountType.EQUITY;
    AccountType.REVENUE; AccountType.EXPENSE ].

(** The groups of the statement, section after section. *)
Definition statementGroups (st : Statement) : list Group.t :=
  (assets st ++ liabilities st ++ equity st ++ revenue st ++ expenses st)%list.

(** Every line the statement shows, group after group. *)
Definition statementLines (st : Statement) : list AccountLine.t :=
  flat_map Group.accounts (statementGroups st).

(** The lines that enter the aggregation at all. *)
Definition detailLines (accounts : list AccountLine.t) : list AccountLine.t :=
  filter (fun a => negb (AccountLine.isGroup a)) accounts.

(** The detail lines filed under one of the five sections. *)
Definition sectionLines (accounts : list AccountLine.t) : list AccountLine.t :=
  filter (fun a => existsb (String.eqb (AccountLine.type a)) statementSections)
         (detailLines accounts).

(** The sum of a list of numbers. *)
Definition total_of (l : list Q) : Q := fold_right Qplus 0%Q l.

(** ** Order of the categories *)

(** Whether the fixed table ranks a category. *)
Definition listed (c : string) : bool :=
  truthy_order (Dict.get String.eqb defaultOrderMap c).

(** The rank the fixed table gives, [d] for a category it does not rank. *)
Definition rankOr (d : Z) (c : string) : Z :=
  order_or (Dict.get String.eqb defaultOrderMap c) d.

(** How the categories stand when a custom model is active. *)
Definition customOrder (localeCompare : string -> string -> Z) (a b : string) : Prop :=
  (listed a = true -> listed b = true -> rankOr 0 a <= rankOr 0 b)
  /\ (listed b = true -> listed a = true)
  /\ (listed a = false -> listed b = false -> localeCompare a b <= 0).

(** The claim on the ties, as the specification words it: without a
    custom model the categories of one rank stand in the order in which
    the lines bring them up. *)
Definition ties_in_discovery_order
           (localeCompare : string -> string -> Z)
           (customRegulations globalModel : option string)
           (accounts : list AccountLine.t) (t : AccountType) : Prop :=
  hasCustomModel customRegulations globalModel = false ->
  forall z,
    filter (fun c => rankOr 99 c =? rankOr 99 z)
           (sortedCategories localeCompare customRegulations globalModel accounts t)
    = filter (fun c => rankOr 99 c =? rankOr 99 z)
             (discovered (filtered accounts t)).

(** ** Extraction *)

(** What one row adds to the extracted lines. *)
Definition contribution (Number_toString : Q -> string) (mapping : ColumnMapping)
           (r : row) : list Partial.t :=
  match extractRow Number_toString mapping r with
  | Some line => [line]
  | None => []
  end.

(** ** The claim on the grouping, as the specification words it *)

(** The lines of all the groups are the lines that are no group line. *)
Definition grouping_complete_as_stated
           (localeCompare : string -> string -> Z)
           (customRegulations globalModel : option string)
           (accounts : list AccountLine.t) : Prop :=
  Permutation
    (statementLines
       (groupedFinancials localeCompare customRegulations globalModel accounts))
    (detailLines accounts).

(** ** A host and sample data *)

(** The comparison of a locale that orders strings by their bytes. *)
Definition ordinalCompare (a b : string) : Z :=
  match String_as_OT.compare a b with
  | Lt => -1
  | Eq => 0
  | Gt => 1
  end.

(** A printer that shows the integer part of a number. *)
Definition integerPart (x : Q) : string :=
  (if Qlt_le_dec x 0 then "-" else "")
  ++ JS.decimal (Z.abs (Qnum x) / Zpos (Qden x)).

(** A generator that counts. *)
Definition counter (n : nat) : string * nat :=
  (JS.decimal (Z.of_nat n), S n).

Definition unclassifiedLine : AccountLine.t :=
  AccountLine.mk "u1" "" "Unknown X" 5 0 5
                 AccountType.UNCLASSIFIED "Sin Clasificar" false false.

Definition ledger : list AccountLine.t :=
  [ AccountLine.mk "a1" "" "Fondo fijo" 10 0 10 AccountType.ASSET "Zeta" false false;
    AccountLine.mk "a2" "" "Plazo fijo" 20 0 20 AccountType.ASSET "Inversiones" false false;
    AccountLine.mk "a3" "" "Anticipos" 30 0 30 AccountType.ASSET "Alfa" false false;
    AccountLine.mk "a4" "" "Banco" 40 0 40 AccountType.ASSET "Caja y Bancos" false false;
    AccountLine.mk "a5" "" "Valores" 50 0 50 AccountType.ASSET "Zeta" false false ].

(** Lines whose categories are numerals. *)
Definition numberedLedger : list AccountLine.t :=
  [ AccountLine.mk "n1" "" "Varios" 1 0 1 AccountType.ASSET "Zeta" false false;
    AccountLine.mk "n2" "" "Nota 10" 2 0 2 AccountType.ASSET "10" false false;
    AccountLine.mk "n3" "" "Nota 2" 3 0 3 AccountType.ASSET "2" false false ].

Definition sampleMapping : ColumnMapping :=
  {| codeIndex := -1; nameIndex := 0; debitIndex := -1; creditIndex := -1;
     balanceIndex := 1; startRow := 1 |}.

Definition sampleTable : list row :=
  [ Some [Str "Cuenta"; Str "Saldo"];
    Some [Str " Proveedores "; Str "-25"];
    Some [];
    Some [Str "   "; Str "12"];
    Some [Str "Caja"; Str "$ 1,200.50"] ].

Definition minus25 : Partial.t :=
  Partial.mk (Some "") (Some "Proveedores") (Some 0%Q) (Some 25%Q) (Some (-25)%Q).

Definition rawLines : list Partial.t :=
  [ Partial.mk (Some "1.1") (Some "Caja") (Some 100%Q) (Some 0%Q) (Some 100%Q);
    Partial.mk (Some "2.1") (Some "Prestamo") (Some 0%Q) (Some 40%Q) (Some (-40)%Q);
    Partial.mk None (Some "Capital") None (Some 60%Q) None;
    Partial.mk None (Some "Unknown X") (Some 5%Q) (Some 0%Q) (Some 5%Q) ].

Definition answer : list ClassificationItem :=
  [ {| item_id := 0; item_type := "ACTIVO"; item_category := "Caja y Bancos";
       item_isGroup := false |};
    {| item_id := 1; item_type := "PASIVO"; item_category := "";
       item_isGroup := false |};
    {| item_id := 2; item_type := "PATRIMONIO_NETO";
       item_category := "Capital Social"; item_isGroup := false |};
    {| item_id := 9; item_type := "ACTIVO"; item_category := "Inversiones";
       item_isGroup := true |} ].

(** ** Further vocabulary: what holds along the pipeline *)

(** The balance of a line is its debit less its credit. *)
Definition balanced (a : AccountLine.t) : Prop :=
  (AccountLine.balance a == AccountLine.debit a - AccountLine.credit a)%Q.


(** The balances are whole numbers, and the sum of their magnitudes is at
    most 2^53.  Every sum of some of them is then a whole number of
    magnitude at most 2^53, which is a number of the machine: the
    additions that the code makes of them are exact, in whatever order and
    grouping. *)
Definition wholeAmounts (l : list AccountLine.t) : Prop :=
  Forall (fun a => exists z : Z, (AccountLine.balance a == inject_Z z)%Q) l
  /\ (total_of (map (fun a => Qabs (AccountLine.balance a)) l)
      <= inject_Z (2 ^ 53))%Q.


(** The detail lines that belong to none of the five sections. *)
Definition strayLines (accounts : list AccountLine.t) : list AccountLine.t :=
  filter (fun a => negb (existsb (String.eqb (AccountLine.type a)) statementSections))
         (detailLines accounts).

(** The amounts of a line, without its labels. *)
Definition amounts (a : AccountLine.t) : string * string * Q * Q :=
  (AccountLine.id a, AccountLine.code a, AccountLine.debit a, AccountLine.credit a).

(** A text made of decimal digits only. *)
Fixpoint all_digits (s : string) : bool :=
  match s with
  | EmptyString => true
  | String c r => JS.is_digit c && all_digits r
  end.

(** The character is one that [keep_numeric] drops. *)
Definition dropped (c : ascii) : bool :=
  negb (JS.is_digit c || Ascii.eqb c "." || Ascii.eqb c "-").

(** The text holds a run of three backticks. *)
Definition has_fence (s : string) : Prop :=
  exists before after, s = (before ++ "```" ++ after)%string.

(** The digits of a decimal numeral, the first one first. *)
Fixpoint uint_digits (d : Decimal.uint) : list Z :=
  match d with
  | Decimal.Nil => []
  | Decimal.D0 l => 0 :: uint_digits l
  | Decimal.D1 l => 1 :: uint_digits l
  | Decimal.D2 l => 2 :: uint_digits l
  | Decimal.D3 l => 3 :: uint_digits l
  | Decimal.D4 l => 4 :: uint_digits l
  | Decimal.D5 l => 5 :: uint_digits l
  | Decimal.D6 l => 6 :: uint_digits l
  | Decimal.D7 l => 7 :: uint_digits l
  | Decimal.D8 l => 8 :: uint_digits l
  | Decimal.D9 l => 9 :: uint_digits l
  end.

(** The text is empty or starts with a character that is no digit. *)
Definition no_digit_ahead (s : string) : Prop :=
  match s with
  | EmptyString => True
  | String c _ => JS.is_digit c = false
  end.

(** The text starts, or ends, with a white space character. *)
Definition starts_with_space (s : string) : Prop :=
  exists w rest, In w JS.whiteSpace /\ s = (w ++ rest)%string.

Definition ends_with_space (s : string) : Prop :=
  exists w rest, In w JS.whiteSpace /\ s = (rest ++ w)%string.

(** The text is made of white space characters only. *)
Definition blank (s : string) : Prop :=
  exists ws, Forall (fun w => In w JS.whiteSpace) ws
             /\ s = fold_right append "" ws.

(** The text holds a backtick. *)
Fixpoint has_backtick (s : string) : bool :=
  match s with
  | EmptyString => false
  | String c r => Ascii.eqb c "`" || has_backtick r
  end.

(** Reading on from [run] backticks, the text never completes a run of
    three. *)
Fixpoint short_runs (run : nat) (s : string) : bool :=
  match s with
  | EmptyString => true
  | String c r =>
      if Ascii.eqb c "`"
      then (S run <? 3)%nat && short_runs (S run) r
      else short_runs 0 r
  end.

(** The number of backticks the text starts with. *)
Fixpoint leading_backticks (s : string) : nat :=
  match s with
  | EmptyString => O
  | String c r => if Ascii.eqb c "`" then S (leading_backticks r) else O
  end.

(** The line with the sign of its balance turned. *)
Definition opposite (a : AccountLine.t) : AccountLine.t :=
  with_balance a (- AccountLine.balance a)%Q.

(** The client the application starts with. *)
Definition demoClient : ClientData.t :=
  ClientData.mk "1" "Empresa Demo S.A." "30-12345678-9" "Retail"
                "2024-01-01T00:00:00.000Z" [] [] [] None.

(** An answer that names the first line twice. *)
Definition secondThoughts : ClassificationItem :=
  {| item_id := 0; item_type := "PASIVO"; item_category := "Deudas";
     item_isGroup := false |}.

(* ================================================================== *)
(** * Facts about the primitives *)
(* ================================================================== *)

Section SortFacts.

Context {A : Type}.
Variable cmp : A -> A -> Z.

Lemma insert_perm (x : A) (l : list A) :
  Permutation (JS.insert cmp x l) (x :: l).
Proof.
  induction l as [|y l IH]; simpl.
  - apply Permutation_refl.
  - destruct (cmp x y <=? 0).
    + apply Permutation_refl.
    + eapply perm_trans; [apply perm_skip, IH | apply perm_swap].
Qed.

Lemma sort_perm (l : list A) : Permutation (JS.sort cmp l) l.
Proof.
  induction l as [|x l IH]; simpl.
  - constructor.
  - eapply perm_trans; [apply insert_perm | apply perm_skip, IH].
Qed.

Hypothesis cmp_ok : consistent cmp.

Lemma insert_sorted (x : A) (l : list A) :
  StronglySorted (precedes cmp) l -> StronglySorted (precedes cmp) (JS.insert cmp x l).
Proof.
  destruct cmp_ok as [Htot Htrans].
  induction 1 as [|y l Hs IH Hy]; simpl.
  - repeat constructor.
  - destruct (cmp x y <=? 0) eqn:E.
    + apply Z.leb_le in E. constructor.
      * constructor; assumption.
      * constructor; [exact E|].
        eapply Forall_impl; [|exact Hy].
        intros z Hz. eapply Htrans; eassumption.
    + apply Z.leb_gt in E. constructor; [exact IH|].
      eapply Permutation_Forall.
      * apply Permutation_sym, insert_perm.
      * constructor; [apply Htot; lia | exact Hy].
Qed.

Lemma sort_sorted (l : list A) : StronglySorted (precedes cmp) (JS.sort cmp l).
Proof.
  induction l as [|x l IH]; simpl.
  - constructor.
  - apply insert_sorted, IH.
Qed.

Lemma insert_tied (z x : A) (l : list A) :
  filter (tied cmp z) (JS.insert cmp x l) = filter (tied cmp z) (x :: l).
Proof.
  destruct cmp_ok as [Htot Htrans].
  induction l as [|y l IH]; [reflexivity|].
  cbn [JS.insert]. destruct (cmp x y <=? 0) eqn:E; [reflexivity|].
  apply Z.leb_gt in E.
  cbn [filter]. rewrite IH. cbn [filter].
  destruct (tied cmp z x) eqn:Tx, (tied cmp z y) eqn:Ty; try reflexivity.
  exfalso. unfold tied in Tx, Ty.
  apply andb_prop in Tx, Ty. destruct Tx as [Tx1 _], Ty as [_ Ty2].
  apply Z.leb_le in Tx1, Ty2.
  pose proof (Htrans _ _ _ Tx1 Ty2). lia.
Qed.

Lemma sort_stable (z : A) (l : list A) :
  filter (tied cmp z) (JS.sort cmp l) = filter (tied cmp z) l.
Proof.
  induction l as [|x l IH]; [reflexivity|].
  cbn [JS.sort fold_right]. rewrite insert_tied.
  cbn [filter]. fold (JS.sort cmp l). rewrite IH. reflexivity.
Qed.

End SortFacts.

Section DictFacts.

Context {K V : Type}.
Variable eqb : K -> K -> bool.
Hypothesis eqb_spec : forall a b : K, reflect (a = b) (eqb a b).

Abbreviation get := (Dict.get (K := K) (V := V) eqb).
Abbreviation set := (Dict.set (K := K) (V := V) eqb).

Lemma get_None_created (o : Dict.t) (k : K) :
  get o k = None <-> ~ In k (Dict.created o).
Proof.
  induction o as [|[k' v] o IH]; simpl.
  - tauto.
  - destruct (eqb_spec k' k) as [->|Hne].
    + split; [discriminate | intros H; exfalso; apply H; now left].
    + rewrite IH. tauto.
Qed.

Lemma get_set_same (o : Dict.t) (k : K) (v : V) :
  get (set o k v) k = Some v.
Proof.
  induction o as [|[k' v'] o IH]; simpl.
  - now destruct (eqb_spec k k).
  - destruct (eqb_spec k' k) as [->|Hne]; simpl.
    + now destruct (eqb_spec k k).
    + destruct (eqb_spec k' k); [contradiction | exact IH].
Qed.

Lemma get_set_other (o : Dict.t) (k k2 : K) (v : V) :
  k <> k2 -> get (set o k v) k2 = get o k2.
Proof.
  intros Hne. induction o as [|[k' v'] o IH]; simpl.
  - destruct (eqb_spec k k2); [contradiction | reflexivity].
  - destruct (eqb_spec k' k) as [->|Hne']; simpl.
    + destruct (eqb_spec k k2); [contradiction | reflexivity].
    + now rewrite IH.
Qed.

Lemma set_set (o : Dict.t) (k : K) (v v' : V) :
  set (set o k v) k v' = set o k v'.
Proof.
  induction o as [|[k' w] o IH]; simpl.
  - now destruct (eqb_spec k k).
  - destruct (eqb_spec k' k) as [->|Hne]; simpl.
    + now destruct (eqb_spec k k).
    + destruct (eqb_spec k' k); [contradiction | now rewrite IH].
Qed.

Lemma created_set (o : Dict.t) (k : K) (v : V) :
  Dict.created (set o k v) =
  if existsb (eqb k) (Dict.created o)
  then Dict.created o else (Dict.created o ++ [k])%list.
Proof.
  induction o as [|[k' w] o IH]; simpl.
  - reflexivity.
  - destruct (eqb_spec k' k) as [->|Hne]; simpl.
    + now destruct (eqb_spec k k).
    + rewrite IH. destruct (eqb_spec k k'); [congruence|].
      now destruct (existsb (eqb k) (Dict.created o)).
Qed.

End DictFacts.

(** The listing of the keys is a rearrangement of the keys. *)
Lemma keyOrder_perm (own : list string) : Permutation (Dict.keyOrder own) own.
Proof.
  unfold Dict.keyOrder.
  eapply perm_trans; [apply Permutation_app_tail, sort_perm|].
  induction own as [|k own IH]; cbn [filter]; [constructor|].
  destruct (Dict.isArrayIndex k); cbn [negb app].
  - now apply perm_skip.
  - eapply perm_trans; [apply Permutation_sym, Permutation_middle|].
    now apply perm_skip.
Qed.

(** Without array indices the keys are listed as they were created. *)
Lemma keyOrder_ordinary (own : list string) :
  Forall (fun k => Dict.isArrayIndex k = false) own -> Dict.keyOrder own = own.
Proof.
  intros H. unfold Dict.keyOrder.
  assert (E : filter Dict.isArrayIndex own = []
              /\ filter (fun k => negb (Dict.isArrayIndex k)) own = own).
  { induction H as [|k own Hk _ [IH1 IH2]]; cbn [filter]; [now split|].
    rewrite Hk. cbn [negb]. now rewrite IH1, IH2. }
  destruct E as [-> ->]. reflexivity.
Qed.

Lemma indexOrder_consistent :
  consistent (fun a b => Dict.indexOf a - Dict.indexOf b).
Proof. split; intros; lia. Qed.

(* ================================================================== *)
(** * Facts about the grouping *)
(* ================================================================== *)


(** Filing a list under distinct keys that cover it only rearranges it. *)
Section Filing.

Context {A : Type}.
Variable key : A -> string.

Lemma filing_skip (a : A) (l : list A) (ks : list string) :
  ~ In (key a) ks ->
  flat_map (fun k => filter (keyed key k) (a :: l)) ks =
  flat_map (fun k => filter (keyed key k) l) ks.
Proof.
  induction ks as [|k ks IH]; intros Hout; [reflexivity|].
  cbn [flat_map].
  change (filter (keyed key k) (a :: l))
    with (if keyed key k a then a :: filter (keyed key k) l else filter (keyed key k) l).
  unfold keyed at 1.
  destruct (String.eqb_spec (key a) k) as [E|_].
  - exfalso. apply Hout. now left.
  - f_equal. apply IH. intros H. apply Hout. now right.
Qed.

Lemma filing_take (a : A) (l : list A) (ks : list string) :
  NoDup ks -> In (key a) ks ->
  Permutation (flat_map (fun k => filter (keyed key k) (a :: l)) ks)
              (a :: flat_map (fun k => filter (keyed key k) l) ks).
Proof.
  induction ks as [|k ks IH]; intros Hnd Ha; [destruct Ha|].
  inversion Hnd as [|? ? Hk Hnd']; subst.
  cbn [flat_map].
  change (filter (keyed key k) (a :: l))
    with (if keyed key k a then a :: filter (keyed key k) l else filter (keyed key k) l).
  unfold keyed at 1.
  destruct (String.eqb_spec (key a) k) as [E|Hne].
  - cbn [app]. apply perm_skip. rewrite filing_skip; [apply Permutation_refl|].
    now rewrite E.
  - destruct Ha as [Ha|Ha]; [congruence|].
    eapply perm_trans; [apply Permutation_app_head, (IH Hnd' Ha)|].
    apply Permutation_sym, Permutation_middle.
Qed.

Lemma filing_perm (l : list A) (ks : list string) :
  NoDup ks ->
  (forall a, In a l -> In (key a) ks) ->
  Permutation (flat_map (fun k => filter (keyed key k) l) ks) l.
Proof.
  intros Hnd. induction l as [|a l IH]; intros Hcov.
  - clear. induction ks; [constructor | assumption].
  - eapply perm_trans; [apply filing_take; auto with datatypes|].
    apply perm_skip, IH. intros b Hb. apply Hcov. now right.
Qed.

End Filing.

Section GroupFacts.

Abbreviation get := (Dict.get (V := list AccountLine.t) String.eqb).
Abbreviation set := (Dict.set (V := list AccountLine.t) String.eqb).

Lemma addToGroup_set (gs : Dict.t) (a : AccountLine.t) :
  addToGroup gs a =
  set gs (categoryOf a)
      (match get gs (categoryOf a) with
       | Some m => m ++ [a]
       | None => [a]
       end)%list.
Proof.
  unfold addToGroup. fold (categoryOf a).
  destruct (get gs (categoryOf a)) as [m|] eqn:E.
  - now rewrite E.
  - rewrite (get_set_same _ String.eqb_spec). apply (set_set _ String.eqb_spec).
Qed.

Lemma fold_addToGroup_get (l : list AccountLine.t) :
  forall (gs : Dict.t) (k : string),
    get (fold_left addToGroup l gs) k =
    match get gs k with
    | Some m => Some (m ++ filter (in_category k) l)%list
    | None =>
        if existsb (in_category k) l
        then Some (filter (in_category k) l) else None
    end.
Proof.
  induction l as [|a l IH]; intros gs k; cbn [fold_left].
  - cbn. destruct (get gs k); [now rewrite app_nil_r | reflexivity].
  - rewrite IH, addToGroup_set. cbn [filter existsb].
    destruct (in_category k a) eqn:E; unfold in_category, keyed in E.
    + apply String.eqb_eq in E. rewrite E, (get_set_same _ String.eqb_spec).
      destruct (get gs k); cbn [orb app]; [now rewrite <- app_assoc | reflexivity].
    + apply String.eqb_neq in E.
      rewrite (get_set_other _ String.eqb_spec) by assumption. cbn [orb]. reflexivity.
Qed.

Lemma created_addToGroup (gs : Dict.t) (a : AccountLine.t) :
  Dict.created (addToGroup gs a) = discover (Dict.created gs) a.
Proof. rewrite addToGroup_set. apply (created_set _ String.eqb_spec). Qed.

Lemma fold_addToGroup_created (l : list AccountLine.t) :
  forall gs : Dict.t,
    Dict.created (fold_left addToGroup l gs) = fold_left discover l (Dict.created gs).
Proof.
  induction l as [|a l IH]; intros gs; cbn [fold_left]; [reflexivity|].
  now rewrite IH, created_addToGroup.
Qed.

Lemma discover_NoDup (seen : list string) (a : AccountLine.t) :
  NoDup seen -> NoDup (discover seen a).
Proof.
  intros H. unfold discover.
  destruct (existsb (String.eqb (categoryOf a)) seen) eqn:E; [exact H|].
  apply NoDup_app; [exact H | repeat constructor; intros [] |].
  intros x Hx [<-|[]].
  assert (existsb (String.eqb (categoryOf a)) seen = true); [|congruence].
  apply existsb_exists. exists (categoryOf a).
  split; [exact Hx | apply String.eqb_refl].
Qed.

Lemma fold_discover_NoDup (l : list AccountLine.t) :
  forall seen, NoDup seen -> NoDup (fold_left discover l seen).
Proof.
  induction l as [|a l IH]; intros seen H; cbn [fold_left]; [exact H|].
  apply IH, discover_NoDup, H.
Qed.

Lemma discover_incl (seen : list string) (a : AccountLine.t) :
  In (categoryOf a) (discover seen a) /\
  (forall k, In k seen -> In k (discover seen a)).
Proof.
  unfold discover.
  destruct (existsb (String.eqb (categoryOf a)) seen) eqn:E.
  - split; [|auto].
    apply existsb_exists in E. destruct E as [k [Hin Hk]].
    apply String.eqb_eq in Hk. now subst.
  - split; [apply in_or_app; right; now left|].
    intros k Hk. apply in_or_app. now left.
Qed.

Lemma fold_discover_In (l : list AccountLine.t) :
  forall seen,
    (forall k, In k seen -> In k (fold_left discover l seen)) /\
    (forall a, In a l -> In (categoryOf a) (fold_left discover l seen)).
Proof.
  induction l as [|a l IH]; intros seen; cbn [fold_left].
  - split; [auto | intros a []].
  - destruct (IH (discover seen a)) as [IH1 IH2].
    destruct (discover_incl seen a) as [D1 D2].
    split; [auto|]. intros b [<-|Hb]; auto.
Qed.

End GroupFacts.

Lemma tryAddToGroup_ordinary (gs : Dict.t) (a : AccountLine.t) :
  Dict.inherited (categoryOf a) = false ->
  tryAddToGroup gs a = Some (addToGroup gs a).
Proof.
  intros H. unfold tryAddToGroup, addToGroup. fold (categoryOf a). rewrite H.
  destruct (Dict.get String.eqb gs (categoryOf a)) as [m|] eqn:E.
  - rewrite E. reflexivity.
  - rewrite !(get_set_same _ String.eqb_spec). reflexivity.
Qed.

Lemma tryAddToGroup_inherited (gs : Dict.t) (a : AccountLine.t) :
  Dict.inherited (categoryOf a) = true ->
  Forall (fun k => Dict.inherited k = false) (Dict.created gs) ->
  tryAddToGroup gs a = None.
Proof.
  intros H Hgs. unfold tryAddToGroup. fold (categoryOf a). rewrite H.
  assert (E : Dict.get String.eqb gs (categoryOf a) = None).
  { apply (get_None_created _ String.eqb_spec). intros Hin.
    rewrite Forall_forall in Hgs. apply Hgs in Hin. congruence. }
  cbv zeta. rewrite E. cbv iota. now rewrite E.
Qed.

Lemma fold_try_None (l : list AccountLine.t) :
  fold_left (fun o acc => match o with
                          | Some groups => tryAddToGroup groups acc
                          | None => None
                          end) l None = None.
Proof. induction l as [|a l IH]; [reflexivity | exact IH]. Qed.

Lemma fold_try (l : list AccountLine.t) :
  forall gs : Dict.t,
    Forall (fun k => Dict.inherited k = false) (Dict.created gs) ->
    fold_left (fun o acc => match o with
                            | Some groups => tryAddToGroup groups acc
                            | None => None
                            end) l (Some gs)
    = if existsb (fun a => Dict.inherited (categoryOf a)) l
      then None else Some (fold_left addToGroup l gs).
Proof.
  induction l as [|a l IH]; intros gs Hgs; cbn [fold_left existsb]; [reflexivity|].
  destruct (Dict.inherited (categoryOf a)) eqn:E; cbn [orb].
  - rewrite tryAddToGroup_inherited by assumption. apply fold_try_None.
  - rewrite tryAddToGroup_ordinary by assumption. apply IH.
    rewrite created_addToGroup. unfold discover.
    destruct (existsb (String.eqb (categoryOf a)) (Dict.created gs)); [exact Hgs|].
    apply Forall_app. split; [exact Hgs | now repeat constructor].
Qed.

Lemma tryGroups_spec (accounts : list AccountLine.t) (t : AccountType) :
  tryGroups accounts t
  = if existsb (fun a => Dict.inherited (categoryOf a)) (filtered accounts t)
    then None else Some (groups accounts t).
Proof. unfold tryGroups, groups. apply fold_try. constructor. Qed.

Lemma completes_groups (accounts : list AccountLine.t) (t : AccountType) :
  completes accounts t = true ->
  tryGroups accounts t = Some (groups accounts t).
Proof.
  unfold completes. rewrite tryGroups_spec.
  now destruct (existsb _ (filtered accounts t)).
Qed.

Lemma filter_none {A : Type} (f : A -> bool) (l : list A) :
  existsb f l = false -> filter f l = [].
Proof.
  induction l as [|a l IH]; cbn; [reflexivity|].
  destruct (f a); cbn; [discriminate | exact IH].
Qed.

Section AggregatorFacts.

Variable localeCompare : string -> string -> Z.
Variable customRegulations globalModel : option string.
Variable accounts : list AccountLine.t.

Abbreviation sections := (groupByTypeAndCategory localeCompare customRegulations globalModel accounts).
Abbreviation sorted := (sortedCategories localeCompare customRegulations globalModel accounts).

Lemma created_groups (t : AccountType) :
  Dict.created (groups accounts t) = discovered (filtered accounts t).
Proof. unfold groups, discovered. now rewrite fold_addToGroup_created. Qed.

Lemma keys_groups (t : AccountType) :
  Dict.keys (groups accounts t) = Dict.keyOrder (discovered (filtered accounts t)).
Proof. unfold Dict.keys. now rewrite created_groups. Qed.

Lemma group_accounts (t : AccountType) (k : string) :
  Group.accounts (groupOf accounts t k) =
  filter (in_category k) (filtered accounts t).
Proof.
  unfold groupOf, groups. cbn [Group.accounts].
  rewrite fold_addToGroup_get. cbn [Dict.get].
  destruct (existsb (in_category k) (filtered accounts t)) eqn:E; [reflexivity|].
  now rewrite filter_none.
Qed.

Lemma sorted_perm (t : AccountType) :
  Permutation (sorted t) (discovered (filtered accounts t)).
Proof.
  unfold sortedCategories. rewrite keys_groups.
  eapply perm_trans; [apply sort_perm | apply keyOrder_perm].
Qed.

Lemma sorted_NoDup (t : AccountType) : NoDup (sorted t).
Proof.
  eapply Permutation_NoDup; [apply Permutation_sym, sorted_perm|].
  apply fold_discover_NoDup. constructor.
Qed.

Lemma section_accounts (t : AccountType) :
  flat_map Group.accounts (sections t) =
  flat_map (fun k => filter (in_category k) (filtered accounts t)) (sorted t).
Proof.
  unfold groupByTypeAndCategory. rewrite flat_map_concat_map, map_map.
  rewrite <- flat_map_concat_map. apply flat_map_ext. intros k.
  apply group_accounts.
Qed.

(** The groups of a section hold the section's lines, each once. *)
Lemma section_perm (t : AccountType) :
  Permutation (flat_map Group.accounts (sections t)) (filtered accounts t).
Proof.
  rewrite section_accounts. apply filing_perm; [apply sorted_NoDup|].
  intros a Ha. eapply Permutation_in; [apply Permutation_sym, sorted_perm|].
  now apply fold_discover_In.
Qed.

Lemma group_in_section (t : AccountType) (g : Group.t) :
  In g (sections t) ->
  exists k, In k (sorted t) /\ g = groupOf accounts t k.
Proof.
  unfold groupByTypeAndCategory. intros H. apply in_map_iff in H.
  destruct H as [k [<- Hk]]. now exists k.
Qed.

End AggregatorFacts.

Lemma filter_twice {A : Type} (f g : A -> bool) (l : list A) :
  filter f (filter g l) = filter (fun a => g a && f a) l.
Proof.
  induction l as [|a l IH]; cbn; [reflexivity|].
  destruct (g a); cbn; [destruct (f a); now rewrite IH | exact IH].
Qed.

Lemma flat_map_perm {A B : Type} (f g : A -> list B) (l : list A) :
  (forall a, In a l -> Permutation (f a) (g a)) ->
  Permutation (flat_map f l) (flat_map g l).
Proof.
  induction l as [|a l IH]; intros H; cbn; [constructor|].
  apply Permutation_app; [apply H; now left|].
  apply IH. intros b Hb. apply H. now right.
Qed.

Lemma filtered_of_sectionLines (accounts : list AccountLine.t) (t : AccountType) :
  In t statementSections ->
  filter (keyed AccountLine.type t) (sectionLines accounts) = filtered accounts t.
Proof.
  intros Ht. unfold sectionLines, detailLines, filtered.
  rewrite !filter_twice. apply filter_ext. intros a. unfold keyed.
  destruct (String.eqb_spec (AccountLine.type a) t) as [->|Hne].
  - assert (E : existsb (String.eqb t) statementSections = true).
    { apply existsb_exists. exists t. split; [exact Ht | apply String.eqb_refl]. }
    rewrite E. now destruct (AccountLine.isGroup a).
  - now rewrite !andb_false_r.
Qed.

Lemma statementSections_NoDup : NoDup statementSections.
Proof.
  unfold statementSections.
  repeat (constructor; [cbn; intuition discriminate|]). constructor.
Qed.

Lemma sectionLines_split (accounts : list AccountLine.t) :
  Permutation (flat_map (filtered accounts) statementSections)
              (sectionLines accounts).
Proof.
  eapply perm_trans; [|apply (filing_perm AccountLine.type _ statementSections)].
  - apply flat_map_perm. intros t Ht. apply Permutation_refl'. symmetry.
    now apply filtered_of_sectionLines.
  - apply statementSections_NoDup.
  - intros a Ha. unfold sectionLines in Ha. apply filter_In in Ha.
    destruct Ha as [_ Ha]. apply existsb_exists in Ha.
    destruct Ha as [t [Ht E]]. apply String.eqb_eq in E. now subst.
Qed.

Lemma statementLines_sections lc cr gm (accounts : list AccountLine.t) :
  statementLines (groupedFinancials lc cr gm accounts) =
  flat_map (fun t => flat_map Group.accounts
                       (groupByTypeAndCategory lc cr gm accounts t))
           statementSections.
Proof.
  unfold statementLines, statementGroups, groupedFinancials, statementSections.
  cbn [assets liabilities equity revenue expenses flat_map].
  rewrite !flat_map_app, app_nil_r. reflexivity.
Qed.

(** C1 (as amended).  When the grouping completes (no detail line of
    the five sections has a category that names a member of
    [Object.prototype]), the groups of the statement hold exactly the
    detail lines of the five sections, each once: the lines shown, group
    after group and section after section, are a rearrangement of the
    lines with [isGroup = false] whose type is one of ACTIVO, PASIVO,
    PATRIMONIO_NETO, INGRESOS and EGRESOS.  A line is filed in the section
    of its type under its category (['Otros'] when it has none), and the
    categories of a section are distinct.  A line of any other type,
    SIN_CLASIFICAR among them, is in no group.  The [forEach] of each of
    the five sections then leaves the groups that the statement is made
    from; and the grouping of a section completes exactly when none of its
    lines has a category that names a member of [Object.prototype]. *)
Theorem grouping_completeness :
  forall (localeCompare : string -> string -> Z)
         (customRegulations globalModel : option string)
         (accounts : list AccountLine.t),
    groupedFinancialsCompletes accounts = true ->
    let st := groupedFinancials localeCompare customRegulations globalModel accounts in
    let section := groupByTypeAndCategory localeCompare customRegulations globalModel accounts in
    Permutation (statementLines st) (sectionLines accounts)
    /\ statementGroups st = flat_map section statementSections
    /\ (forall t g a,
           In t statementSections ->
           In g (section t) -> In a (Group.accounts g) ->
           In a accounts /\ AccountLine.isGroup a = false
           /\ AccountLine.type a = t /\ categoryOf a = Group.name g)
    /\ (forall t, In t statementSections -> NoDup (map Group.name (section t)))
    /\ (forall a, In a (statementLines st) ->
                  AccountLine.type a <> AccountType.UNCLASSIFIED)
    /\ (forall t, In t statementSections ->
                  tryGroups accounts t = Some (groups accounts t))
    /\ (forall t,
           completes accounts t
           = negb (existsb (fun a => Dict.inherited (categoryOf a))
                           (filtered accounts t))).
Proof.
  intros lc cr gm accounts Hrun st section.
  assert (Hperm : Permutation (statementLines st) (sectionLines accounts)).
  { unfold st. rewrite statementLines_sections.
    eapply perm_trans; [|apply sectionLines_split].
    apply flat_map_perm. intros t _. apply section_perm. }
  split; [exact Hperm|]. split; [|split; [|split; [|split; [|split]]]].
  5:{ intros t Ht. apply completes_groups.
      unfold groupedFinancialsCompletes in Hrun.
      repeat (apply andb_prop in Hrun; destruct Hrun as [Hrun ?]).
      unfold statementSections in Ht. cbn [In] in Ht.
      repeat (destruct Ht as [<-|Ht]; [assumption|]). destruct Ht. }
  5:{ intros t. unfold completes. rewrite tryGroups_spec.
      now destruct (existsb _ (filtered accounts t)). }
  - unfold statementGroups, st, groupedFinancials, statementSections.
    cbn [assets liabilities equity revenue expenses flat_map].
    now rewrite app_nil_r.
  - intros t g a _ Hg Ha. unfold section in Hg.
    apply group_in_section in Hg. destruct Hg as [k [_ ->]].
    rewrite group_accounts in Ha. apply filter_In in Ha.
    destruct Ha as [Ha Hk]. unfold filtered in Ha. apply filter_In in Ha.
    destruct Ha as [Hin Hf]. apply andb_prop in Hf. destruct Hf as [Ht Hg].
    apply String.eqb_eq in Ht, Hk. apply negb_true_iff in Hg.
    repeat split; assumption.
  - intros t _. unfold section, groupByTypeAndCategory.
    rewrite map_map. cbn [groupOf Group.name]. rewrite map_id.
    apply sorted_NoDup.
  - intros a Ha Hu. eapply Permutation_in in Ha; [|exact Hperm].
    unfold sectionLines in Ha. apply filter_In in Ha. destruct Ha as [_ Ha].
    rewrite Hu in Ha. vm_compute in Ha. discriminate.
Qed.

Lemma fold_sum_acc {A : Type} (f : A -> Q) (l : list A) :
  forall acc : Q,
    (fold_left (fun s x => s + f x) l acc == acc + total_of (map f l))%Q.
Proof.
  induction l as [|a l IH]; intros acc; cbn [fold_left map total_of fold_right].
  - ring.
  - rewrite IH. fold (total_of (map f l)). ring.
Qed.

Lemma sum_by_total_of {A : Type} (f : A -> Q) (l : list A) :
  (sum_by f l == total_of (map f l))%Q.
Proof. unfold sum_by. rewrite fold_sum_acc. ring. Qed.



Lemma deleteLine_absent (id : string) (prev : list AccountLine.t) :
  (forall a, In a prev -> AccountLine.id a <> id) -> deleteLine id prev = prev.
Proof.
  induction prev as [|a prev IH]; intros H; cbn; [reflexivity|].
  destruct (String.eqb_spec (AccountLine.id a) id) as [E|_]; cbn.
  - exfalso. apply (H a); [now left | exact E].
  - f_equal. apply IH. intros b Hb. apply H. now right.
Qed.

Lemma deleteLine_app (id : string) (l1 l2 : list AccountLine.t) :
  deleteLine id (l1 ++ l2) = (deleteLine id l1 ++ deleteLine id l2)%list.
Proof. apply filter_app. Qed.

(** C9.  Deleting an id that no line carries gives back the sequence as it
    was, whatever the answer to the confirmation; deleting the id of a
    line removes that line and keeps every other line, in order. *)
Theorem deleteLine_idempotent :
  forall (id : string) (prev : list AccountLine.t),
    ((forall a, In a prev -> AccountLine.id a <> id) ->
     deleteLine id prev = prev
     /\ forall confirmed, handleDeleteAccount confirmed id prev = prev)
    /\ (forall before a after,
           prev = (before ++ a :: after)%list ->
           AccountLine.id a = id ->
           (forall b, In b (before ++ after)%list -> AccountLine.id b <> id) ->
           deleteLine id prev = (before ++ after)%list
           /\ handleDeleteAccount true id prev = (before ++ after)%list)
    /\ (forall b, In b (deleteLine id prev) <->
                  In b prev /\ AccountLine.id b <> id).
Proof.
  intros id prev. split; [|split].
  - intros H. split; [now apply deleteLine_absent|].
    intros []; cbn; [now apply deleteLine_absent | reflexivity].
  - intros before a after -> Ha Hothers.
    assert (E : deleteLine id (before ++ a :: after) = (before ++ after)%list).
    { rewrite deleteLine_app. cbn [deleteLine filter].
      rewrite Ha, String.eqb_refl. cbn [negb].
      fold (deleteLine id after).
      rewrite !deleteLine_absent; [reflexivity| |];
        intros b Hb; apply Hothers, in_or_app; auto. }
    split; [exact E | exact E].
  - intros b. unfold deleteLine. rewrite filter_In.
    rewrite negb_true_iff, String.eqb_neq. tauto.
Qed.

Lemma num_or_0 (x : Q) : (JS.num_or x 0 == x)%Q.
Proof.
  unfold JS.num_or, JS.truthy_num.
  destruct (Qeq_bool x 0) eqn:E; cbn; [|reflexivity].
  apply Qeq_bool_eq in E. now rewrite E.
Qed.

Lemma handleManualEdit_nth (id : string) (fv : FieldValue)
      (prev : list AccountLine.t) (i : nat) :
  nth_error (handleManualEdit id fv prev) i =
  option_map
    (fun acc => if (AccountLine.id acc =? id)%string then edited acc fv else acc)
    (nth_error prev i).
Proof. unfold handleManualEdit. apply nth_error_map. Qed.

Lemma edited_manualOverride (acc : AccountLine.t) (fv : FieldValue) :
  AccountLine.manualOverride (edited acc fv) = true.
Proof. destruct acc, fv; reflexivity. Qed.

(** C5.  Editing a field: the sequence keeps its length; a line whose id
    differs is left as it was; a line whose id matches gets
    [manualOverride = true]; when the field is [debit] (or [credit]) the
    balance becomes the new debit minus the credit the line had (or the
    debit the line had minus the new credit); when the field is [balance]
    the debit and the credit stay as they were.  With distinct ids at most
    one position of the sequence changes. *)
Theorem handleManualEdit_semantics :
  forall (id : string) (fv : FieldValue) (prev : list AccountLine.t),
    let next := handleManualEdit id fv prev in
    List.length next = List.length prev
    /\ (forall i acc,
           nth_error prev i = Some acc -> AccountLine.id acc <> id ->
           nth_error next i = Some acc)
    /\ (forall i acc,
           nth_error prev i = Some acc -> AccountLine.id acc = id ->
           exists acc',
             nth_error next i = Some acc'
             /\ acc' = edited acc fv
             /\ AccountLine.manualOverride acc' = true
             /\ (forall v, fv = f_debit v ->
                   AccountLine.debit acc' = v
                   /\ AccountLine.credit acc' = AccountLine.credit acc
                   /\ (AccountLine.balance acc' == v - AccountLine.credit acc)%Q)
             /\ (forall v, fv = f_credit v ->
                   AccountLine.credit acc' = v
                   /\ AccountLine.debit acc' = AccountLine.debit acc
                   /\ (AccountLine.balance acc' == AccountLine.debit acc - v)%Q)
             /\ (forall v, fv = f_balance v ->
                   AccountLine.balance acc' = v
                   /\ AccountLine.debit acc' = AccountLine.debit acc
                   /\ AccountLine.credit acc' = AccountLine.credit acc))
    /\ (NoDup (map AccountLine.id prev) ->
        forall i j, nth_error next i <> nth_error prev i ->
                    nth_error next j <> nth_error prev j -> i = j).
Proof.
  intros id fv prev next. unfold next.
  split; [apply length_map|]. split; [|split].
  - intros i acc Hi Hne. rewrite handleManualEdit_nth, Hi. cbn.
    now destruct (String.eqb_spec (AccountLine.id acc) id).
  - intros i acc Hi He. exists (edited acc fv).
    split; [|split; [reflexivity|split; [apply edited_manualOverride|]]].
    + rewrite handleManualEdit_nth, Hi. cbn. now rewrite He, String.eqb_refl.
    + split; [|split]; intros v ->; destruct acc; cbn.
      all: repeat split; try reflexivity.
      all: rewrite num_or_0; reflexivity.
  - intros Hnd i j Hi Hj.
    assert (Hid : forall n, nth_error (handleManualEdit id fv prev) n
                            <> nth_error prev n ->
                            nth_error (map AccountLine.id prev) n = Some id).
    { intros n Hn. rewrite handleManualEdit_nth in Hn.
      rewrite nth_error_map.
      destruct (nth_error prev n) as [acc|]; cbn in *; [|congruence].
      destruct (String.eqb_spec (AccountLine.id acc) id) as [->|]; congruence. }
    pose proof (Hid i Hi) as Ei. pose proof (Hid j Hj) as Ej.
    eapply NoDup_nth_error; [exact Hnd | | congruence].
    apply nth_error_Some. congruence.
Qed.

(* ================================================================== *)
(** * Facts about the classification merge *)
(* ================================================================== *)


Lemma classificationMap_step_None (result : list ClassificationItem) :
  forall (m : Dict.t) (k : Z),
    Dict.get Z.eqb
      (fold_left
         (fun m item =>
            Dict.set Z.eqb m (item_id item)
              {| type := item_type item;
                 category := JS.str_or (item_category item) "Otros";
                 isGroup := item_isGroup item |})
         result m) k = None <->
    Dict.get Z.eqb m k = None /\ forall item, In item result -> item_id item <> k.
Proof.
  induction result as [|item result IH]; intros m k; cbn [fold_left].
  - split; [intros H; split; [exact H | intros ? []] | tauto].
  - rewrite IH. split.
    + intros [Hm Hr]. destruct (Z.eq_dec (item_id item) k) as [E|Hne].
      * rewrite E, (get_set_same _ Z.eqb_spec) in Hm. discriminate.
      * rewrite (get_set_other _ Z.eqb_spec) in Hm by assumption.
        split; [exact Hm|]. intros it [<-|Hit]; auto.
    + intros [Hm Hr]. split; [|intros it Hit; apply Hr; now right].
      rewrite (get_set_other _ Z.eqb_spec); [exact Hm|].
      apply Hr. now left.
Qed.

(** An index has no entry exactly when no object of the answer names it. *)
Lemma classificationMap_None (result : list ClassificationItem) (k : Z) :
  Dict.get Z.eqb (classificationMap result) k = None <->
  forall item, In item result -> item_id item <> k.
Proof.
  unfold classificationMap. rewrite classificationMap_step_None. cbn. tauto.
Qed.

Section ClassifyFacts.

Variable G : Type.
Variable randomUUID : G -> string * G.

Abbreviation mapU := (mapWithUUID G randomUUID).
Abbreviation drawsU := (draws G randomUUID).

Lemma mapWithUUID_length f (accounts : list Partial.t) :
  forall index g, List.length (fst (mapU f accounts index g)) = List.length accounts.
Proof.
  induction accounts as [|acc rest IH]; intros index g; cbn; [reflexivity|].
  destruct (randomUUID g) as [uuid g1].
  specialize (IH (index + 1) g1).
  destruct (mapWithUUID G randomUUID f rest (index + 1) g1). cbn in *.
  now rewrite IH.
Qed.

Lemma mapWithUUID_nth f (accounts : list Partial.t) :
  forall index g i acc,
    nth_error accounts i = Some acc ->
    exists uuid,
      nth_error (drawsU (List.length accounts) g) i = Some uuid
      /\ nth_error (fst (mapU f accounts index g)) i
         = Some (f acc (index + Z.of_nat i) uuid).
Proof.
  induction accounts as [|a rest IH]; intros index g i acc Hi.
  - destruct i; discriminate.
  - cbn [mapWithUUID draws List.length].
    destruct (randomUUID g) as [uuid g1].
    specialize (IH (index + 1) g1).
    destruct (mapWithUUID G randomUUID f rest (index + 1) g1) as [lines g2].
    cbn [fst] in *. destruct i as [|i]; cbn [nth_error] in *.
    + injection Hi as <-. exists uuid. split; [reflexivity|].
      do 2 f_equal. lia.
    + destruct (IH i acc Hi) as [u [Hu Hl]]. exists u. split; [exact Hu|].
      rewrite Hl. do 2 f_equal. lia.
Qed.

Lemma mapWithUUID_ids f (accounts : list Partial.t) :
  (forall acc index uuid, AccountLine.id (f acc index uuid) = uuid) ->
  forall index g,
    map AccountLine.id (fst (mapU f accounts index g))
    = drawsU (List.length accounts) g.
Proof.
  intros Hf. induction accounts as [|a rest IH]; intros index g; cbn; [reflexivity|].
  destruct (randomUUID g) as [uuid g1].
  specialize (IH (index + 1) g1).
  destruct (mapWithUUID G randomUUID f rest (index + 1) g1) as [lines g2].
  cbn in *. now rewrite Hf, IH.
Qed.

End ClassifyFacts.

(** C4.  Fallback completeness of the merge: whatever the answer of the
    classifier (empty, shorter, longer or naming other indices), there is
    one line per raw line, in the order of the raw lines; the line of an
    index that the answer does not name has type SIN_CLASIFICAR, category
    ['Sin Clasificar'] and [isGroup = false]; every line has
    [manualOverride = false]; the ids are the successive draws of the
    generator, one per line, hence distinct whenever the draws are. *)
Theorem classifyAccounts_fallback :
  forall (G : Type) (randomUUID : G -> string * G)
         (accounts : list Partial.t) (result : list ClassificationItem) (g : G),
    let lines := fst (classifyAccounts G randomUUID accounts (Some result) g) in
    List.length lines = List.length accounts
    /\ (forall i acc,
           nth_error accounts i = Some acc ->
           exists line,
             nth_error lines i = Some line
             /\ line = classified (classificationMap result) acc (Z.of_nat i)
                                  (AccountLine.id line)
             /\ AccountLine.manualOverride line = false
             /\ ((forall item, In item result -> item_id item <> Z.of_nat i) ->
                 AccountLine.type line = AccountType.UNCLASSIFIED
                 /\ AccountLine.category line = "Sin Clasificar"
                 /\ AccountLine.isGroup line = false))
    /\ map AccountLine.id lines = draws G randomUUID (List.length accounts) g
    /\ (NoDup (draws G randomUUID (List.length accounts) g) ->
        NoDup (map AccountLine.id lines)).
Proof.
  intros G randomUUID accounts result g lines. unfold lines, classifyAccounts.
  assert (Hids : map AccountLine.id
                   (fst (mapWithUUID G randomUUID
                           (classified (classificationMap result)) accounts 0 g))
                 = draws G randomUUID (List.length accounts) g)
    by (apply mapWithUUID_ids; reflexivity).
  split; [apply mapWithUUID_length|]. split; [|split].
  - intros i acc Hi.
    destruct (mapWithUUID_nth G randomUUID
                (classified (classificationMap result)) accounts 0 g i acc Hi)
      as [uuid [_ Hl]].
    eexists. split; [exact Hl|]. cbn [Z.add].
    split; [reflexivity|]. split; [reflexivity|].
    intros Hnone. apply classificationMap_None in Hnone.
    unfold classified. cbn. rewrite Hnone. cbn. repeat split.
  - exact Hids.
  - now rewrite Hids.
Qed.

(** C10.  The merge does not carry the balance over as it is: a raw line
    whose balance is absent or zero gets [debit - credit] (an absent debit
    or credit counting as 0), and only a balance other than zero is kept
    as it is.  A raw line with debit 5, credit 0 and balance 0 comes out
    with balance 5. *)
Theorem classifyAccounts_balance :
  forall (G : Type) (randomUUID : G -> string * G)
         (accounts : list Partial.t) (result : list ClassificationItem) (g : G),
    let lines := fst (classifyAccounts G randomUUID accounts (Some result) g) in
    let or0 := fun x : option Q => JS.or_else JS.truthy_num x 0%Q in
    (forall i acc,
        nth_error accounts i = Some acc ->
        exists line,
          nth_error lines i = Some line
          /\ (forall b, Partial.balance acc = Some b -> ~ (b == 0)%Q ->
                        AccountLine.balance line = b)
          /\ (Partial.balance acc = None ->
              AccountLine.balance line
              = (or0 (Partial.debit acc) - or0 (Partial.credit acc))%Q)
          /\ (forall b, Partial.balance acc = Some b -> (b == 0)%Q ->
                        AccountLine.balance line
                        = (or0 (Partial.debit acc) - or0 (Partial.credit acc))%Q))
    /\ (accounts = [Partial.mk None None (Some 5%Q) (Some 0%Q) (Some 0%Q)] ->
        map AccountLine.balance lines = [(5 - 0)%Q]).
Proof.
  intros G randomUUID accounts result g lines or0. split.
  - intros i acc Hi. unfold lines, classifyAccounts.
    destruct (mapWithUUID_nth G randomUUID
                (classified (classificationMap result)) accounts 0 g i acc Hi)
      as [uuid [_ Hl]].
    eexists. split; [exact Hl|]. unfold classified. cbn [AccountLine.balance].
    split; [|split].
    + intros b -> Hb. cbn. unfold JS.truthy_num.
      destruct (Qeq_bool b 0) eqn:E; [|reflexivity].
      apply Qeq_bool_eq in E. contradiction.
    + intros ->. reflexivity.
    + intros b -> Hb. cbn. unfold JS.truthy_num.
      apply Qeq_eq_bool in Hb. now rewrite Hb.
  - intros ->. unfold lines. cbn.
    destruct (randomUUID g) as [uuid g1]. reflexivity.
Qed.

(* ================================================================== *)
(** * Facts about the extraction of rows *)
(* ================================================================== *)

Section ExtractFacts.

Variable Number_toString : Q -> string.
Variable mapping : ColumnMapping.

Lemma extractLoop_acc (rows : list row) :
  forall extractedLines,
    extractLoop Number_toString mapping rows extractedLines
    = (extractedLines ++ flat_map (contribution Number_toString mapping) rows)%list.
Proof.
  induction rows as [|r rows IH]; intros acc; cbn [extractLoop flat_map].
  - now rewrite app_nil_r.
  - unfold contribution at 1.
    destruct (extractRow Number_toString mapping r) as [line|].
    + now rewrite IH, <- app_assoc.
    + now rewrite IH.
Qed.

Lemma rowName_nil : rowName Number_toString mapping [] = "".
Proof.
  unfold rowName, at_index.
  destruct (-1 <? nameIndex mapping); [|reflexivity].
  destruct (nameIndex mapping <? 0); [reflexivity|].
  now destruct (Z.to_nat (nameIndex mapping)).
Qed.

Lemma extractRow_cells (cells : list cell) :
  extractRow Number_toString mapping (Some cells) =
  if JS.truthy_str (rowName Number_toString mapping cells) then
    Some (Partial.mk
            (Some (rowCode Number_toString mapping cells))
            (Some (rowName Number_toString mapping cells))
            (Some (fst (fst (rowAmounts Number_toString mapping cells))))
            (Some (snd (fst (rowAmounts Number_toString mapping cells))))
            (Some (snd (rowAmounts Number_toString mapping cells))))
  else None.
Proof.
  destruct cells as [|c cs].
  - cbn [extractRow]. now rewrite rowName_nil.
  - cbn [extractRow].
    destruct (rowAmounts Number_toString mapping (c :: cs)) as [[d cr] b].
    reflexivity.
Qed.

End ExtractFacts.

(** C7.  With a balance column and neither a debit nor a credit column,
    the balance of every extracted line is the number read from the
    balance cell of its row, its debit is [max(balance, 0)] and its credit
    is [max(-balance, 0)]; a balance cell that reads -25 gives debit 0,
    credit 25 and balance -25. *)
Theorem single_balance_column :
  forall (Number_toString : Q -> string) (mapping : ColumnMapping)
         (rows : list row),
    -1 < balanceIndex mapping ->
    debitIndex mapping <= -1 ->
    creditIndex mapping <= -1 ->
    forall line,
      In line (parseFinancialDocument Number_toString mapping rows) ->
      exists cells b d c,
        In (Some cells) rows
        /\ b = parseNumber Number_toString (at_index cells (balanceIndex mapping))
        /\ Partial.balance line = Some b
        /\ Partial.debit line = Some d
        /\ Partial.credit line = Some c
        /\ (d == Qmax b 0)%Q
        /\ (c == Qmax (- b) 0)%Q
        /\ ((b == -25)%Q -> (d == 0)%Q /\ (c == 25)%Q).
Proof.
  intros nts mapping rows Hb Hd Hc line Hin.
  unfold parseFinancialDocument in Hin. rewrite extractLoop_acc in Hin.
  cbn [app] in Hin. apply in_flat_map in Hin.
  destruct Hin as [r [Hr Hl]].
  assert (Hr' : In r rows).
  { rewrite <- (firstn_skipn (Z.to_nat (startRow mapping)) rows).
    apply in_or_app. now right. }
  clear Hr. rename Hr' into Hr.
  unfold contribution in Hl.
  destruct (extractRow nts mapping r) as [line'|] eqn:Er; [|destruct Hl].
  destruct Hl as [<-|[]].
  destruct r as [cells|]; [|discriminate].
  rewrite extractRow_cells in Er.
  destruct (JS.truthy_str (rowName nts mapping cells)); [|discriminate].
  injection Er as <-. cbn [Partial.balance Partial.debit Partial.credit].
  unfold rowAmounts.
  replace (-1 <? debitIndex mapping) with false by (symmetry; apply Z.ltb_ge; lia).
  cbn [andb].
  replace (-1 <? balanceIndex mapping) with true by (symmetry; apply Z.ltb_lt; lia).
  set (b := parseNumber nts (at_index cells (balanceIndex mapping))).
  destruct (Qlt_le_dec 0 b) as [Hpos|Hneg]; cbn [fst snd].
  - exists cells, b, b, 0%Q. repeat split; try reflexivity; try assumption.
    + symmetry. apply Q.max_l. now apply Qlt_le_weak.
    + symmetry. apply Q.max_r. lra.
    + lra.
    + lra.
  - exists cells, b, 0%Q, (Qabs b). repeat split; try reflexivity; try assumption.
    + symmetry. apply Q.max_r. exact Hneg.
    + rewrite Qabs_neg by exact Hneg. symmetry. apply Q.max_l. lra.
    + rewrite Qabs_neg by exact Hneg. lra.
Qed.

(* ================================================================== *)
(** * Facts about the order of the categories *)
(* ================================================================== *)

Lemma StronglySorted_weaken {A : Type} (R R' : A -> A -> Prop) (l : list A) :
  (forall a b, R a b -> R' a b) -> StronglySorted R l -> StronglySorted R' l.
Proof.
  intros H. induction 1 as [|a l Hs IH Ha]; constructor; [exact IH|].
  eapply Forall_impl; [|exact Ha]. intros b. apply H.
Qed.

Section OrderFacts.

Variable localeCompare : string -> string -> Z.
Variable customRegulations globalModel : option string.

Abbreviation cmp := (compareCategories localeCompare customRegulations globalModel).

Lemma compare_default (a b : string) :
  hasCustomModel customRegulations globalModel = false ->
  cmp a b = rankOr 99 a - rankOr 99 b.
Proof. intros H. unfold compareCategories. now rewrite H. Qed.

Lemma compare_custom (a b : string) :
  hasCustomModel customRegulations globalModel = true ->
  cmp a b =
  if listed a && listed b then rankOr 0 a - rankOr 0 b
  else if listed a then -1
  else if listed b then 1
  else localeCompare a b.
Proof. intros H. unfold compareCategories. now rewrite H. Qed.

Lemma consistent_default :
  hasCustomModel customRegulations globalModel = false -> consistent cmp.
Proof.
  intros H. split.
  - intros a b. rewrite !compare_default by exact H. lia.
  - intros a b c. rewrite !compare_default by exact H. lia.
Qed.

Lemma consistent_custom :
  hasCustomModel customRegulations globalModel = true ->
  consistent localeCompare -> consistent cmp.
Proof.
  intros H [Htot Htrans]. split.
  - intros a b. rewrite !compare_custom by exact H.
    destruct (listed a), (listed b); cbn [andb]; try lia. apply Htot.
  - intros a b c. rewrite !compare_custom by exact H.
    destruct (listed a), (listed b), (listed c); cbn [andb]; try lia.
    apply Htrans.
Qed.

Lemma le_custom (a b : string) :
  hasCustomModel customRegulations globalModel = true ->
  cmp a b <= 0 -> customOrder localeCompare a b.
Proof.
  intros H. rewrite compare_custom by exact H. unfold customOrder.
  destruct (listed a), (listed b); cbn [andb]; intros Hle;
    repeat split; intros; try congruence; lia.
Qed.

Lemma tied_default (z c : string) :
  hasCustomModel customRegulations globalModel = false ->
  tied cmp z c = (rankOr 99 c =? rankOr 99 z).
Proof.
  intros H. unfold tied. rewrite !compare_default by exact H.
  destruct (Z.eqb_spec (rankOr 99 c) (rankOr 99 z)) as [E|Hne].
  - rewrite E, Z.sub_diag. reflexivity.
  - destruct (Z.leb_spec (rankOr 99 c - rankOr 99 z) 0);
      destruct (Z.leb_spec (rankOr 99 z - rankOr 99 c) 0); cbn; try reflexivity.
    lia.
Qed.

Lemma tied_custom (z c : string) :
  hasCustomModel customRegulations globalModel = true ->
  listed z = true ->
  tied cmp z c = listed c && (rankOr 0 c =? rankOr 0 z).
Proof.
  intros H Hz. unfold tied. rewrite !compare_custom by exact H. rewrite Hz.
  destruct (listed c); cbn [andb]; [|reflexivity].
  destruct (Z.eqb_spec (rankOr 0 c) (rankOr 0 z)) as [E|Hne].
  - rewrite E, Z.sub_diag. reflexivity.
  - destruct (Z.leb_spec (rankOr 0 c - rankOr 0 z) 0);
      destruct (Z.leb_spec (rankOr 0 z - rankOr 0 c) 0); cbn; try reflexivity.
    lia.
Qed.

End OrderFacts.

(** C2 (as amended).  The order of the categories of a section whose
    grouping completes, that is, whose [forEach] leaves [groups] without
    throwing.  They are the categories that the lines of the section bring
    up, each once, and [Object.keys] lists them with the array indices
    first, in ascending numeric order, and the others behind in the order
    in which they came up; when no category is an array index this is the
    order in which they came up.  The fixed table ranks seven categories
    of the assets 1 to 7, five of the liabilities 1 to 5 and three of the
    equity 1 to 3.  Without a custom model the categories are in ascending
    rank, a category outside the fixed table having rank 99, and the
    categories of one rank are in the order of that listing.  With a
    custom model (and a comparison of the locale that is a total
    preorder), two categories of the table are in the order of their
    ranks, and those of one rank in the order of the listing; a category
    of the table is never after one outside it; and two categories outside
    the table are in the order of the locale's comparison. *)
Theorem category_ordering :
  forall (localeCompare : string -> string -> Z)
         (customRegulations globalModel : option string)
         (accounts : list AccountLine.t) (t : AccountType),
    completes accounts t = true ->
    let cats := sortedCategories localeCompare customRegulations globalModel accounts t in
    let found := discovered (filtered accounts t) in
    let listing := Dict.keyOrder found in
    tryGroups accounts t = Some (groups accounts t)
    /\ Permutation cats found
    /\ map Group.name
           (groupByTypeAndCategory localeCompare customRegulations globalModel accounts t)
       = cats
    /\ (exists indices,
           listing = (indices ++ filter (fun c => negb (Dict.isArrayIndex c)) found)%list
           /\ Permutation indices (filter Dict.isArrayIndex found)
           /\ StronglySorted (fun a b => Dict.indexOf a <= Dict.indexOf b) indices)
    /\ (Forall (fun c => Dict.isArrayIndex c = false) found -> listing = found)
    /\ map (rankOr 99)
           [ "Caja y Bancos"; "Inversiones"; "Créditos por Ventas";
             "Otros Créditos"; "Bienes de Cambio"; "Bienes de Uso";
             "Activos Intangibles";
             "Deudas Comerciales"; "Deudas Bancarias";
             "Deudas Sociales y Fiscales"; "Otras Deudas"; "Previsiones";
             "Capital Social"; "Reservas"; "Resultados Acumulados"; "Otros" ]
       = [1; 2; 3; 4; 5; 6; 7; 1; 2; 3; 4; 5; 1; 2; 3; 99]
    /\ (hasCustomModel customRegulations globalModel = false ->
        StronglySorted (fun a b => rankOr 99 a <= rankOr 99 b) cats
        /\ forall z, filter (fun c => rankOr 99 c =? rankOr 99 z) cats
                     = filter (fun c => rankOr 99 c =? rankOr 99 z) listing)
    /\ (hasCustomModel customRegulations globalModel = true ->
        consistent localeCompare ->
        StronglySorted (customOrder localeCompare) cats
        /\ forall z, listed z = true ->
                     filter (fun c => listed c && (rankOr 0 c =? rankOr 0 z)) cats
                     = filter (fun c => listed c && (rankOr 0 c =? rankOr 0 z)) listing).
Proof.
  intros lc cr gm accounts t Hrun cats found listing.
  split; [now apply completes_groups|].
  split; [apply sorted_perm|]. split; [|split; [|split; [|split; [|split]]]].
  - unfold groupByTypeAndCategory. rewrite map_map.
    cbn [groupOf Group.name]. apply map_id.
  - eexists. split; [reflexivity|]. split; [apply sort_perm|].
    eapply StronglySorted_weaken; [|apply (sort_sorted _ indexOrder_consistent)].
    intros a b. unfold precedes. lia.
  - apply keyOrder_ordinary.
  - reflexivity.
  - intros H. pose proof (consistent_default lc cr gm H) as Hc. split.
    + eapply StronglySorted_weaken; [|apply (sort_sorted _ Hc)].
      intros a b. unfold precedes. rewrite compare_default by exact H. lia.
    + intros z. unfold cats, sortedCategories, listing, found.
      rewrite <- keys_groups.
      rewrite <- (filter_ext _ _ (fun c => tied_default lc cr gm z c H)).
      rewrite <- (filter_ext _ _ (fun c => tied_default lc cr gm z c H)).
      apply (sort_stable _ Hc).
  - intros H Hlc. pose proof (consistent_custom lc cr gm H Hlc) as Hc. split.
    + eapply StronglySorted_weaken; [|apply (sort_sorted _ Hc)].
      intros a b. now apply le_custom.
    + intros z Hz. unfold cats, sortedCategories, listing, found.
      rewrite <- keys_groups.
      rewrite <- (filter_ext _ _ (fun c => tied_custom lc cr gm z c H Hz)).
      rewrite <- (filter_ext _ _ (fun c => tied_custom lc cr gm z c H Hz)).
      apply (sort_stable _ Hc).
Qed.

(* ================================================================== *)
(** * The properties on the sample data *)
(* ================================================================== *)

Lemma ordinalCompare_consistent : consistent ordinalCompare.
Proof.
  unfold ordinalCompare. split.
  - intros a b.
    destruct (String_as_OT.compare_spec a b) as [E|Hlt|Hgt]; try lia.
    intros _. unfold String_as_OT.lt in Hgt. rewrite Hgt. lia.
  - intros a b c.
    destruct (String_as_OT.compare_spec a b) as [E|Hab|Hgt]; [| |lia].
    + cbv [String_as_OT.eq] in E. subst b. tauto.
    + destruct (String_as_OT.compare_spec b c) as [E'|Hbc|Hgt']; [| |lia].
      * cbv [String_as_OT.eq] in E'. subst c.
        unfold String_as_OT.lt in Hab. rewrite Hab. lia.
      * assert (H : String_as_OT.lt a c)
          by (eapply String_as_OT.lt_strorder; eassumption).
        unfold String_as_OT.lt in H. rewrite H. lia.
Qed.

(** C1, as the specification words it, fails: a detail line of type
    SIN_CLASIFICAR is in no group of the statement. *)
Lemma unclassified_line_in_no_group :
  statementLines (groupedFinancials ordinalCompare None None [unclassifiedLine]) = []
  /\ detailLines [unclassifiedLine] = [unclassifiedLine]
  /\ ~ grouping_complete_as_stated ordinalCompare None None [unclassifiedLine].
Proof.
  split; [reflexivity|]. split; [reflexivity|].
  unfold grouping_complete_as_stated. intros H.
  apply Permutation_nil in H. discriminate H.
Qed.

(** The ordering theorem on the sample ledger, with a custom model. *)
(** The statement of the sample ledger holds its five lines. *)
Lemma grouping_completeness_witness :
  groupedFinancialsCompletes ledger = true
  /\ Permutation
       (statementLines (groupedFinancials ordinalCompare None None ledger))
       (sectionLines ledger).
Proof.
  split; [reflexivity|].
  exact (proj1 (grouping_completeness ordinalCompare None None ledger eq_refl)).
Defined.

(** C2, as the specification words it, fails: three categories of rank 99
    that come up as Zeta, 10, 2 are shown as 2, 10, Zeta. *)
Lemma numerals_come_first :
  sortedCategories ordinalCompare None None numberedLedger AccountType.ASSET
  = ["2"; "10"; "Zeta"]
  /\ discovered (filtered numberedLedger AccountType.ASSET) = ["Zeta"; "10"; "2"]
  /\ completes numberedLedger AccountType.ASSET = true
  /\ ~ ties_in_discovery_order ordinalCompare None None numberedLedger
                               AccountType.ASSET.
Proof.
  split; [reflexivity|]. split; [reflexivity|]. split; [reflexivity|].
  intros H. specialize (H eq_refl "Zeta"). discriminate H.
Qed.

Lemma category_ordering_witness :
  completes ledger AccountType.ASSET = true
  /\ hasCustomModel (Some "Modelo del cliente") None = true
  /\ consistent ordinalCompare
  /\ sortedCategories ordinalCompare (Some "Modelo del cliente") None ledger
                      AccountType.ASSET
     = ["Caja y Bancos"; "Inversiones"; "Alfa"; "Zeta"]
  /\ StronglySorted (customOrder ordinalCompare)
       (sortedCategories ordinalCompare (Some "Modelo del cliente") None ledger
                         AccountType.ASSET).
Proof.
  refine (conj eq_refl (conj eq_refl (conj ordinalCompare_consistent
                                           (conj eq_refl _)))).
  exact (proj1 (proj2 (proj2 (proj2 (proj2 (proj2 (proj2 (proj2
           (category_ordering ordinalCompare (Some "Modelo del cliente") None
                              ledger AccountType.ASSET eq_refl)))))))
           eq_refl ordinalCompare_consistent)).
Defined.

(** The merge on the sample raw lines: the generator draws distinct ids,
    and the fourth line, which the answer does not name, falls back. *)
Lemma classifyAccounts_fallback_witness :
  NoDup (draws nat counter (List.length rawLines) 0%nat)
  /\ (forall item, In item answer -> item_id item <> 3)
  /\ NoDup (map AccountLine.id
              (fst (classifyAccounts nat counter rawLines (Some answer) 0%nat)))
  /\ exists line,
       nth_error (fst (classifyAccounts nat counter rawLines (Some answer) 0%nat)) 3
       = Some line
       /\ AccountLine.type line = AccountType.UNCLASSIFIED
       /\ AccountLine.category line = "Sin Clasificar"
       /\ AccountLine.isGroup line = false.
Proof.
  assert (Hdraws : NoDup (draws nat counter (List.length rawLines) 0%nat)).
  { cbn. repeat (constructor; [cbn; intuition discriminate|]). constructor. }
  assert (Hans : forall item, In item answer -> item_id item <> 3).
  { intros item Hin. cbn in Hin.
    repeat (destruct Hin as [<-|Hin]; [cbn; discriminate|]). destruct Hin. }
  pose proof (classifyAccounts_fallback nat counter rawLines answer 0%nat) as T.
  cbv zeta in T. destruct T as [_ [Hnth [_ Hnd]]].
  split; [exact Hdraws|]. split; [exact Hans|]. split; [exact (Hnd Hdraws)|].
  destruct (Hnth 3%nat _ eq_refl) as [line [Hl [_ [_ Hfb]]]].
  exists line. split; [exact Hl | exact (Hfb Hans)].
Defined.

(** An edit of the credit of the sample ledger. *)
Lemma handleManualEdit_semantics_witness :
  NoDup (map AccountLine.id ledger)
  /\ (forall i j,
         nth_error (handleManualEdit "a4" (f_credit 15) ledger) i
         <> nth_error ledger i ->
         nth_error (handleManualEdit "a4" (f_credit 15) ledger) j
         <> nth_error ledger j -> i = j)
  /\ exists acc',
       nth_error (handleManualEdit "a4" (f_credit 15) ledger) 3 = Some acc'
       /\ AccountLine.manualOverride acc' = true
       /\ (AccountLine.balance acc' == 40 - 15)%Q.
Proof.
  assert (Hnd : NoDup (map AccountLine.id ledger)).
  { cbn. repeat (constructor; [cbn; intuition discriminate|]). constructor. }
  pose proof (handleManualEdit_semantics "a4" (f_credit 15) ledger) as T.
  cbv zeta in T. destruct T as [_ [_ [Hed Hone]]].
  split; [exact Hnd|]. split; [exact (Hone Hnd)|].
  destruct (Hed 3%nat _ eq_refl eq_refl) as [acc' [Hn [_ [Hm [_ [Hc _]]]]]].
  exists acc'. split; [exact Hn|]. split; [exact Hm|].
  exact (proj2 (proj2 (Hc _ eq_refl))).
Defined.

(** The extraction of the sample table, which has a balance column only. *)
Lemma single_balance_column_witness :
  -1 < balanceIndex sampleMapping
  /\ debitIndex sampleMapping <= -1
  /\ creditIndex sampleMapping <= -1
  /\ In minus25 (parseFinancialDocument integerPart sampleMapping sampleTable)
  /\ exists cells b d c,
       In (Some cells) sampleTable
       /\ b = parseNumber integerPart (at_index cells (balanceIndex sampleMapping))
       /\ Partial.balance minus25 = Some b
       /\ Partial.debit minus25 = Some d
       /\ Partial.credit minus25 = Some c
       /\ (d == Qmax b 0)%Q
       /\ (c == Qmax (- b) 0)%Q
       /\ ((b == -25)%Q -> (d == 0)%Q /\ (c == 25)%Q).
Proof.
  assert (H1 : -1 < balanceIndex sampleMapping) by (cbn; lia).
  assert (H2 : debitIndex sampleMapping <= -1) by (cbn; lia).
  assert (H3 : creditIndex sampleMapping <= -1) by (cbn; lia).
  assert (H4 : In minus25
                  (parseFinancialDocument integerPart sampleMapping sampleTable))
    by (left; reflexivity).
  exact (conj H1 (conj H2 (conj H3 (conj H4
           (single_balance_column integerPart sampleMapping sampleTable
                                  H1 H2 H3 minus25 H4))))).
Defined.

(** Deleting from the sample ledger an id that it does not hold, and one
    that it holds. *)
Lemma deleteLine_idempotent_witness :
  (forall a, In a ledger -> AccountLine.id a <> "zz")
  /\ deleteLine "zz" ledger = ledger
  /\ List.length (deleteLine "a3" ledger) = 4%nat.
Proof.
  assert (H : forall a, In a ledger -> AccountLine.id a <> "zz").
  { intros a Hin. cbn in Hin.
    repeat (destruct Hin as [<-|Hin]; [cbn; discriminate|]). destruct Hin. }
  split; [exact H|].
  split; [exact (proj1 (proj1 (deleteLine_idempotent "zz" ledger) H))|].
  reflexivity.
Defined.

(** The scenarios of the specification, run on the model. *)

Example extraction_scenario :
  parseFinancialDocument integerPart sampleMapping sampleTable
  = [ minus25;
      Partial.mk (Some "") (Some "Caja")
                 (Some (120050 # 100)) (Some 0%Q) (Some (120050 # 100)) ].
Proof. reflexivity. Qed.

Example fallback_scenario :
  map (fun l => (AccountLine.name l, AccountLine.type l,
                 AccountLine.category l, AccountLine.isGroup l))
      (fst (classifyAccounts nat counter rawLines (Some answer) 0%nat))
  = [ ("Caja", "ACTIVO", "Caja y Bancos", false);
      ("Prestamo", "PASIVO", "Otros", false);
      ("Capital", "PATRIMONIO_NETO", "Capital Social", false);
      ("Unknown X", "SIN_CLASIFICAR", "Sin Clasificar", false) ].
Proof. reflexivity. Qed.

Example ordering_scenario :
  sortedCategories ordinalCompare None None ledger AccountType.ASSET
  = ["Caja y Bancos"; "Inversiones"; "Zeta"; "Alfa"]
  /\ sortedCategories ordinalCompare None (Some "ACTIVO: Disponibilidades") ledger
                      AccountType.ASSET
     = ["Caja y Bancos"; "Inversiones"; "Alfa"; "Zeta"].
Proof. split; reflexivity. Qed.

(* ================================================================== *)
(** * Further properties: the balance along the pipeline *)
(* ================================================================== *)






Lemma or_else_0 (x : Q) : (JS.or_else JS.truthy_num (Some x) 0 == x)%Q.
Proof.
  cbn. unfold JS.truthy_num.
  destruct (Qeq_bool x 0) eqn:E; cbn; [|reflexivity].
  apply Qeq_bool_eq in E. now rewrite E.
Qed.



Lemma mapWithUUID_Forall (G : Type) (randomUUID : G -> string * G)
      (P : Partial.t -> Prop) (R : AccountLine.t -> Prop) f :
  (forall acc index uuid, P acc -> R (f acc index uuid)) ->
  forall accounts index g,
    Forall P accounts ->
    Forall R (fst (mapWithUUID G randomUUID f accounts index g)).
Proof.
  intros Hf. induction accounts as [|a rest IH]; intros index g H; cbn.
  - constructor.
  - inversion H as [|? ? Ha Hrest]; subst.
    destruct (randomUUID g) as [uuid g1].
    specialize (IH (index + 1) g1 Hrest).
    destruct (mapWithUUID G randomUUID f rest (index + 1) g1) as [lines g2].
    cbn in *. constructor; [now apply Hf | exact IH].
Qed.


(* ================================================================== *)
(** * Further properties: the line editor *)
(* ================================================================== *)

Lemma edited_balanced (acc : AccountLine.t) (fv : FieldValue) :
  (forall v, fv <> f_balance v) -> balanced acc -> balanced (edited acc fv).
Proof.
  intros Hfv H. unfold balanced in *.
  destruct acc, fv; cbn in *; try exact H.
  - rewrite num_or_0. reflexivity.
  - rewrite num_or_0. reflexivity.
  - exfalso. now apply (Hfv value).
Qed.

(** X3.  An edit of any field other than the balance keeps the lines
    balanced: when every line has its balance equal to its debit less its
    credit before the edit, so it has after.  (An edit of the debit or of
    the credit recomputes the balance; an edit of the balance itself is the
    one way to part them.) *)
Theorem handleManualEdit_balanced :
  forall (id : string) (fv : FieldValue) (prev : list AccountLine.t),
    (forall v, fv <> f_balance v) ->
    Forall balanced prev ->
    Forall balanced (handleManualEdit id fv prev).
Proof.
  intros id fv prev Hfv H. unfold handleManualEdit.
  induction H as [|a l Ha Hl IH]; cbn [map]; constructor; [|exact IH].
  destruct (AccountLine.id a =? id)%string; [|exact Ha].
  now apply edited_balanced.
Qed.

Lemma handleManualEdit_absent (id : string) (fv : FieldValue)
      (prev : list AccountLine.t) :
  (forall a, In a prev -> AccountLine.id a <> id) ->
  handleManualEdit id fv prev = prev.
Proof.
  intros H. unfold handleManualEdit.
  induction prev as [|a l IH]; cbn [map]; [reflexivity|].
  destruct (String.eqb_spec (AccountLine.id a) id) as [E|_].
  - exfalso. apply (H a); [now left | exact E].
  - f_equal. apply IH. intros b Hb. apply H. now right.
Qed.

Lemma edited_id (acc : AccountLine.t) (fv : FieldValue) :
  (forall v, fv <> f_id v) -> AccountLine.id (edited acc fv) = AccountLine.id acc.
Proof.
  intros H. destruct acc, fv; cbn; try reflexivity.
  exfalso. now apply (H value).
Qed.

(** X4.  Edits address lines by id.  An edit under an id that no line
    carries changes nothing.  Two edits under different ids, neither of
    them of the id field, can be made in either order with the same
    result. *)
Theorem handleManualEdit_by_id :
  forall (prev : list AccountLine.t),
    (forall id fv,
        (forall a, In a prev -> AccountLine.id a <> id) ->
        handleManualEdit id fv prev = prev)
    /\ (forall id1 fv1 id2 fv2,
           id1 <> id2 ->
           (forall v, fv1 <> f_id v) -> (forall v, fv2 <> f_id v) ->
           handleManualEdit id1 fv1 (handleManualEdit id2 fv2 prev)
           = handleManualEdit id2 fv2 (handleManualEdit id1 fv1 prev)).
Proof.
  intros prev. split.
  - intros id fv. apply handleManualEdit_absent.
  - intros id1 fv1 id2 fv2 Hne H1 H2. unfold handleManualEdit.
    rewrite !map_map. apply map_ext. intros a.
    destruct (String.eqb_spec (AccountLine.id a) id1) as [E1|N1];
      destruct (String.eqb_spec (AccountLine.id a) id2) as [E2|N2].
    + congruence.
    + rewrite (edited_id a fv1 H1).
      destruct (String.eqb_spec (AccountLine.id a) id2); [contradiction|].
      destruct (String.eqb_spec (AccountLine.id a) id1); [reflexivity|contradiction].
    + rewrite (edited_id a fv2 H2).
      destruct (String.eqb_spec (AccountLine.id a) id1); [contradiction|].
      destruct (String.eqb_spec (AccountLine.id a) id2); [reflexivity|contradiction].
    + destruct (String.eqb_spec (AccountLine.id a) id1); [contradiction|].
      destruct (String.eqb_spec (AccountLine.id a) id2); [contradiction|].
      reflexivity.
Qed.

(** X5.  Deleting is idempotent and leaves no line under the id; two
    deletions can be made in either order; and deleting the line that
    [handleAddAccount] has just added, under an id that no earlier line
    carries, gives back the earlier lines. *)
Theorem deleteLine_algebra :
  forall (G : Type) (randomUUID : G -> string * G)
         (prev : list AccountLine.t) (g : G),
    (forall id, deleteLine id (deleteLine id prev) = deleteLine id prev)
    /\ (forall id, Forall (fun a => AccountLine.id a <> id) (deleteLine id prev))
    /\ (forall id1 id2,
           deleteLine id1 (deleteLine id2 prev) = deleteLine id2 (deleteLine id1 prev))
    /\ ((forall a, In a prev -> AccountLine.id a <> fst (randomUUID g)) ->
        deleteLine (fst (randomUUID g))
                   (fst (handleAddAccount G randomUUID prev g)) = prev).
Proof.
  intros G randomUUID prev g. unfold deleteLine. split; [|split; [|split]].
  - intros id. rewrite filter_twice. apply filter_ext. intros a.
    now destruct (negb _).
  - intros id. apply Forall_forall. intros a Ha. apply filter_In in Ha.
    destruct Ha as [_ Ha]. apply negb_true_iff in Ha.
    now apply String.eqb_neq.
  - intros id1 id2. rewrite !filter_twice. apply filter_ext. intros a.
    apply andb_comm.
  - intros Hfresh. unfold handleAddAccount.
    destruct (randomUUID g) as [uuid g1]. cbn [fst filter AccountLine.id].
    rewrite String.eqb_refl. cbn [negb].
    apply deleteLine_absent. exact Hfresh.
Qed.

(* ================================================================== *)
(** * Further properties: the statement and the check *)
(* ================================================================== *)

Lemma total_of_cons (x : Q) (l : list Q) :
  total_of (x :: l) = (x + total_of l)%Q.
Proof. reflexivity. Qed.

Lemma total_of_app (l l' : list Q) :
  (total_of (l ++ l') == total_of l + total_of l')%Q.
Proof.
  induction l as [|x l IH].
  - cbn [app]. change (total_of []) with 0%Q. ring.
  - cbn [app]. rewrite !total_of_cons, IH. ring.
Qed.

Lemma total_of_perm (l l' : list Q) :
  Permutation l l' -> (total_of l == total_of l')%Q.
Proof.
  induction 1 as [|x l l' _ IH|x y l|l l' l'' _ IH1 _ IH2].
  - reflexivity.
  - rewrite !total_of_cons, IH. reflexivity.
  - rewrite !total_of_cons. ring.
  - now rewrite IH1.
Qed.

Lemma total_of_map_ext {A : Type} (f h : A -> Q) (l : list A) :
  (forall a, In a l -> (f a == h a)%Q) ->
  (total_of (map f l) == total_of (map h l))%Q.
Proof.
  induction l as [|a l IH]; intros H; cbn [map]; [reflexivity|].
  rewrite !total_of_cons, IH, (H a) by auto with datatypes. reflexivity.
Qed.

Lemma total_of_flat (gs : list Group.t) :
  (total_of (map (fun g => total_of (map AccountLine.balance (Group.accounts g))) gs)
   == total_of (map AccountLine.balance (flat_map Group.accounts gs)))%Q.
Proof.
  induction gs as [|g gs IH]; cbn [map flat_map]; [reflexivity|].
  rewrite map_app, total_of_app, total_of_cons. now rewrite IH.
Qed.

Section TotalFacts.

Variable localeCompare : string -> string -> Z.
Variable customRegulations globalModel : option string.
Variable accounts : list AccountLine.t.

Abbreviation section := (groupByTypeAndCategory localeCompare customRegulations globalModel accounts).

(** The total of a section is the sum of the balances of its lines. *)
Lemma section_total (t : AccountType) :
  (sum_by Group.total (section t)
   == total_of (map AccountLine.balance (filtered accounts t)))%Q.
Proof.
  rewrite sum_by_total_of.
  rewrite (total_of_map_ext Group.total
             (fun g => total_of (map AccountLine.balance (Group.accounts g)))).
  - rewrite total_of_flat. apply total_of_perm, Permutation_map, section_perm.
  - intros g Hg. apply group_in_section in Hg. destruct Hg as [k [_ ->]].
    unfold groupOf. cbn [Group.total Group.accounts]. apply sum_by_total_of.
Qed.

(** No category is shown without a line of its own. *)
Lemma group_not_empty (t : AccountType) (g : Group.t) :
  In g (section t) -> Group.accounts g <> [].
Proof.
  intros Hg. apply group_in_section in Hg. destruct Hg as [k [Hk ->]].
  rewrite group_accounts.
  eapply Permutation_in in Hk; [|apply sorted_perm].
  unfold discovered in Hk.
  assert (H : forall l seen, In k (fold_left discover l seen) ->
                             In k seen \/ exists a, In a l /\ categoryOf a = k).
  { induction l as [|a l IH]; intros seen Hin; cbn [fold_left] in Hin; [now left|].
    destruct (IH _ Hin) as [Hs|[b [Hb E]]].
    - unfold discover in Hs.
      destruct (existsb _ seen); [now left|].
      apply in_app_or in Hs. destruct Hs as [Hs|[<-|[]]]; [now left|].
      right. exists a. split; [now left | reflexivity].
    - right. exists b. split; [now right | exact E]. }
  destruct (H _ _ Hk) as [[]|[a [Ha E]]].
  intros Hnil.
  assert (Hin : In a (filter (in_category k) (filtered accounts t))).
  { apply filter_In. split; [exact Ha|].
    unfold in_category, keyed. rewrite E. apply String.eqb_refl. }
  rewrite Hnil in Hin. destruct Hin.
Qed.

End TotalFacts.

Lemma groupByTypeAndCategory_ext lc cr gm (a b : list AccountLine.t) (t : AccountType) :
  filtered a t = filtered b t ->
  groupByTypeAndCategory lc cr gm a t = groupByTypeAndCategory lc cr gm b t.
Proof.
  intros H. unfold groupByTypeAndCategory, sortedCategories, groupOf, groups.
  now rewrite H.
Qed.

Lemma groupedFinancials_ext lc cr gm (a b : list AccountLine.t) :
  (forall t, In t statementSections -> filtered a t = filtered b t) ->
  groupedFinancials lc cr gm a = groupedFinancials lc cr gm b.
Proof.
  intros H. unfold groupedFinancials.
  rewrite !(groupByTypeAndCategory_ext lc cr gm a b)
    by (apply H; unfold statementSections; cbn; tauto).
  reflexivity.
Qed.

Lemma filtered_detailLines (accounts : list AccountLine.t) (t : AccountType) :
  filtered (detailLines accounts) t = filtered accounts t.
Proof.
  unfold filtered, detailLines. rewrite filter_twice. apply filter_ext.
  intros a. destruct (AccountLine.isGroup a), (AccountLine.type a =? t)%string;
    reflexivity.
Qed.

Lemma detailLines_idem (accounts : list AccountLine.t) :
  detailLines (detailLines accounts) = detailLines accounts.
Proof.
  unfold detailLines. rewrite filter_twice. apply filter_ext.
  intros a. now destruct (AccountLine.isGroup a).
Qed.

(** X6.  Group lines never count: the statement and the findings are
    those of the detail lines alone, so two sets of lines with the same
    detail lines, in the same order, give the same statement and the same
    findings. *)
Theorem group_lines_never_count :
  forall (localeCompare : string -> string -> Z)
         (customRegulations globalModel : option string)
         (Number_toString : Q -> string) (accounts : list AccountLine.t),
    groupedFinancials localeCompare customRegulations globalModel accounts
    = groupedFinancials localeCompare customRegulations globalModel
                        (detailLines accounts)
    /\ inconsistencies Number_toString accounts
       = inconsistencies Number_toString (detailLines accounts)
    /\ (forall others,
           detailLines others = detailLines accounts ->
           groupedFinancials localeCompare customRegulations globalModel others
           = groupedFinancials localeCompare customRegulations globalModel accounts
           /\ inconsistencies Number_toString others
              = inconsistencies Number_toString accounts).
Proof.
  intros lc cr gm nts accounts.
  assert (S : forall a, groupedFinancials lc cr gm a
                        = groupedFinancials lc cr gm (detailLines a)).
  { intros a. apply groupedFinancials_ext. intros t _.
    symmetry. apply filtered_detailLines. }
  assert (F : forall a, inconsistencies nts a = inconsistencies nts (detailLines a)).
  { intros a. unfold inconsistencies, grandTotal.
    fold (detailLines a). fold (detailLines (detailLines a)).
    now rewrite detailLines_idem. }
  split; [apply S|]. split; [apply F|].
  intros others H. rewrite (S others), (S accounts), (F others), (F accounts), H.
  split; reflexivity.
Qed.

(** X7.  A new account does not show: [handleAddAccount] puts one line in
    front of the others, under the id drawn, marked as a manual entry and
    of type SIN_CLASIFICAR with no amounts; the statement and the findings
    stay as they were. *)
Theorem handleAddAccount_invisible :
  forall (G : Type) (randomUUID : G -> string * G)
         (localeCompare : string -> string -> Z)
         (customRegulations globalModel : option string)
         (Number_toString : Q -> string)
         (prev : list AccountLine.t) (g : G),
    let next := fst (handleAddAccount G randomUUID prev g) in
    (exists newAccount,
        next = newAccount :: prev
        /\ AccountLine.id newAccount = fst (randomUUID g)
        /\ AccountLine.manualOverride newAccount = true
        /\ AccountLine.isGroup newAccount = false
        /\ AccountLine.type newAccount = AccountType.UNCLASSIFIED)
    /\ groupedFinancials localeCompare customRegulations globalModel next
       = groupedFinancials localeCompare customRegulations globalModel prev
    /\ inconsistencies Number_toString next = inconsistencies Number_toString prev.
Proof.
  intros G randomUUID lc cr gm nts prev g next. unfold next, handleAddAccount.
  destruct (randomUUID g) as [uuid g1]. cbn [fst].
  split; [eexists; repeat split|]. split.
  - apply groupedFinancials_ext. intros t Ht. unfold filtered.
    cbn [filter AccountLine.type AccountLine.isGroup].
    destruct (String.eqb_spec AccountType.UNCLASSIFIED t) as [<-|_]; [|reflexivity].
    exfalso. unfold statementSections in Ht. cbn in Ht.
    intuition discriminate.
  - reflexivity.
Qed.

Lemma whole_total (l : list AccountLine.t) :
  Forall (fun a => exists z : Z, (AccountLine.balance a == inject_Z z)%Q) l ->
  exists z : Z, (total_of (map AccountLine.balance l) == inject_Z z)%Q.
Proof.
  induction 1 as [|a l [z Hz] _ [y Hy]]; cbn [map].
  - exists 0. reflexivity.
  - exists (z + y). rewrite total_of_cons, Hz, Hy, inject_Z_plus. reflexivity.
Qed.

Lemma magnitude_total (l : list AccountLine.t) :
  (Qabs (total_of (map AccountLine.balance l))
   <= total_of (map (fun a => Qabs (AccountLine.balance a)) l))%Q.
Proof.
  induction l as [|a l IH]; cbn [map].
  - change (total_of []) with 0%Q. cbn. discriminate.
  - rewrite !total_of_cons.
    eapply Qle_trans; [apply Qabs_triangle|].
    apply Qplus_le_compat; [apply Qle_refl | exact IH].
Qed.

Lemma magnitude_filter (f : AccountLine.t -> bool) (l : list AccountLine.t) :
  (total_of (map (fun a => Qabs (AccountLine.balance a)) (filter f l))
   <= total_of (map (fun a => Qabs (AccountLine.balance a)) l))%Q.
Proof.
  induction l as [|a l IH]; cbn [filter map]; [apply Qle_refl|].
  rewrite total_of_cons. destruct (f a); cbn [map].
  - rewrite total_of_cons. apply Qplus_le_compat; [apply Qle_refl | exact IH].
  - eapply Qle_trans; [exact IH|].
    rewrite <- (Qplus_0_l (total_of _)) at 1.
    apply Qplus_le_compat; [apply Qabs_nonneg | apply Qle_refl].
Qed.

Lemma wholeAmounts_filter (f : AccountLine.t -> bool) (l : list AccountLine.t) :
  wholeAmounts l -> wholeAmounts (filter f l).
Proof.
  intros [Hw Hb]. split.
  - apply Forall_forall. intros a Ha. apply filter_In in Ha.
    rewrite Forall_forall in Hw. now apply Hw.
  - eapply Qle_trans; [apply magnitude_filter | exact Hb].
Qed.

(** Whole amounts add up to a whole number within the bound. *)
Lemma wholeAmounts_total (l : list AccountLine.t) :
  wholeAmounts l ->
  exists z : Z,
    (total_of (map AccountLine.balance l) == inject_Z z)%Q
    /\ (Qabs (total_of (map AccountLine.balance l)) <= inject_Z (2 ^ 53))%Q.
Proof.
  intros [Hw Hb]. destruct (whole_total l Hw) as [z Hz].
  exists z. split; [exact Hz|].
  eapply Qle_trans; [apply magnitude_total | exact Hb].
Qed.

(** X8.  For whole balances whose magnitudes sum to at most 2^53, and a
    grouping that completes, the total of each section is the sum of
    the balances of the detail lines of its type; it depends neither on
    how the lines are spread over categories nor on the order of the
    categories.  Each of these sums is a whole number of magnitude at most
    2^53. *)
Theorem section_totals_from_lines :
  forall (localeCompare : string -> string -> Z)
         (customRegulations globalModel : option string)
         (accounts : list AccountLine.t),
    groupedFinancialsCompletes accounts = true ->
    wholeAmounts (detailLines accounts) ->
    let st := groupedFinancials localeCompare customRegulations globalModel accounts in
    let sum := fun t => total_of (map AccountLine.balance (filtered accounts t)) in
    (assetsTotal st == sum AccountType.ASSET)%Q
    /\ (liabilitiesTotal st == sum AccountType.LIABILITY)%Q
    /\ (equityTotal st == sum AccountType.EQUITY)%Q
    /\ (revenueTotal st == sum AccountType.REVENUE)%Q
    /\ (expenseTotal st == sum AccountType.EXPENSE)%Q
    /\ (netResult st == Qabs (sum AccountType.REVENUE)
                        - Qabs (sum AccountType.EXPENSE))%Q
    /\ (forall t, exists z : Z,
           (sum t == inject_Z z)%Q /\ (Qabs (sum t) <= inject_Z (2 ^ 53))%Q).
Proof.
  intros lc cr gm accounts _ Hw st sum. unfold st, groupedFinancials, sum.
  cbn [assetsTotal liabilitiesTotal equityTotal revenueTotal expenseTotal netResult].
  repeat split; try apply section_total.
  - now rewrite !section_total.
  - intros t. rewrite <- filtered_detailLines. unfold filtered at 1 2.
    apply wholeAmounts_total, wholeAmounts_filter, Hw.
Qed.

Lemma total_of_split {A : Type} (v : A -> Q) (keep : A -> bool) (l : list A) :
  (total_of (map v l)
   == total_of (map v (filter keep l))
      + total_of (map v (filter (fun a => negb (keep a)) l)))%Q.
Proof.
  induction l as [|a l IH]; cbn [map filter].
  - change (total_of []) with 0%Q. ring.
  - destruct (keep a); cbn [negb map]; rewrite !total_of_cons, IH; ring.
Qed.

(** X9.  For whole balances whose magnitudes sum to at most 2^53, and a
    grouping that completes, the total that the check looks at is the
    sum of the five section totals of the statement and of the balances of
    the detail lines that belong to no section; when every detail line
    belongs to a section, it is the sum of the five section totals.  The
    total is a whole number of magnitude at most 2^53. *)
Theorem grandTotal_of_sections :
  forall (localeCompare : string -> string -> Z)
         (customRegulations globalModel : option string)
         (accounts : list AccountLine.t),
    groupedFinancialsCompletes accounts = true ->
    wholeAmounts (detailLines accounts) ->
    let st := groupedFinancials localeCompare customRegulations globalModel accounts in
    let sections :=
      (assetsTotal st + liabilitiesTotal st + equityTotal st
       + revenueTotal st + expenseTotal st)%Q in
    (grandTotal accounts
     == sections + total_of (map AccountLine.balance (strayLines accounts)))%Q
    /\ (strayLines accounts = [] -> (grandTotal accounts == sections)%Q)
    /\ (exists z : Z,
           (grandTotal accounts == inject_Z z)%Q
           /\ (Qabs (grandTotal accounts) <= inject_Z (2 ^ 53))%Q).
Proof.
  intros lc cr gm accounts _ Hw st sections.
  assert (E : (grandTotal accounts
               == sections + total_of (map AccountLine.balance (strayLines accounts)))%Q).
  { unfold grandTotal. fold (detailLines accounts). rewrite sum_by_total_of.
    rewrite (total_of_split AccountLine.balance
               (fun a => existsb (String.eqb (AccountLine.type a)) statementSections)
               (detailLines accounts)).
    fold (sectionLines accounts). fold (strayLines accounts).
    rewrite <- (total_of_perm _ _
                  (Permutation_map AccountLine.balance (sectionLines_split accounts))).
    unfold statementSections. cbn [flat_map]. rewrite app_nil_r.
    rewrite !map_app, !total_of_app.
    unfold sections, st, groupedFinancials.
    cbn [assetsTotal liabilitiesTotal equityTotal revenueTotal expenseTotal].
    rewrite !section_total. ring. }
  split; [exact E|]. split.
  - intros H. rewrite E, H.
    change (total_of (map AccountLine.balance [])) with 0%Q. ring.
  - destruct (wholeAmounts_total _ Hw) as [z [Hz Hb]].
    assert (G : (grandTotal accounts
                 == total_of (map AccountLine.balance (detailLines accounts)))%Q)
      by apply sum_by_total_of.
    exists z. rewrite G. split; assumption.
Qed.

(** X10.  In a section whose grouping completes no category is shown
    empty, and the section shows no category exactly when no detail line
    has its type. *)
Theorem sections_hold_lines :
  forall (localeCompare : string -> string -> Z)
         (customRegulations globalModel : option string)
         (accounts : list AccountLine.t) (t : AccountType),
    completes accounts t = true ->
    let section := groupByTypeAndCategory localeCompare customRegulations globalModel accounts t in
    Forall (fun g => Group.accounts g <> []) section
    /\ (section = [] <-> filtered accounts t = []).
Proof.
  intros lc cr gm accounts t _ section. split.
  - apply Forall_forall. intros g Hg. eapply group_not_empty. exact Hg.
  - split; intros H.
    + pose proof (section_perm lc cr gm accounts t) as P.
      fold section in P. rewrite H in P. cbn in P.
      now apply Permutation_nil in P.
    + unfold section, groupByTypeAndCategory, sortedCategories, groups.
      now rewrite H.
Qed.

(* ================================================================== *)
(** * Further properties: the classification *)
(* ================================================================== *)

Lemma mapWithUUID_map_ext (G : Type) (randomUUID : G -> string * G)
      {B : Type} (h : AccountLine.t -> B) f1 f2 :
  (forall acc index uuid, h (f1 acc index uuid) = h (f2 acc index uuid)) ->
  forall accounts index g,
    map h (fst (mapWithUUID G randomUUID f1 accounts index g))
    = map h (fst (mapWithUUID G randomUUID f2 accounts index g)).
Proof.
  intros H. induction accounts as [|a rest IH]; intros index g; cbn; [reflexivity|].
  destruct (randomUUID g) as [uuid g1].
  specialize (IH (index + 1) g1).
  destruct (mapWithUUID G randomUUID f1 rest (index + 1) g1) as [l1 g2].
  destruct (mapWithUUID G randomUUID f2 rest (index + 1) g1) as [l2 g3].
  cbn in *. now rewrite H, IH.
Qed.

Lemma filtered_other_type (accounts : list AccountLine.t) (t u : AccountType) :
  Forall (fun a => AccountLine.type a = u) accounts -> u <> t ->
  filtered accounts t = [].
Proof.
  intros H Hne. unfold filtered.
  induction H as [|a l Ha _ IH]; cbn [filter]; [reflexivity|].
  rewrite Ha. destruct (String.eqb_spec u t); [contradiction|]. exact IH.
Qed.

(** X11.  When the classifier fails no line is lost: there is one line
    per raw line, each of type SIN_CLASIFICAR, category ['Error'], no
    group line and no manual entry, with the id, code, debit and credit
    that it would have had with any answer; and the statement made of
    these lines has no group at all. *)
Theorem classifier_failure :
  forall (G : Type) (randomUUID : G -> string * G)
         (accounts : list Partial.t) (g : G),
    let failed := fst (classifyAccounts G randomUUID accounts None g) in
    List.length failed = List.length accounts
    /\ Forall (fun a => AccountLine.type a = AccountType.UNCLASSIFIED
                        /\ AccountLine.category a = "Error"
                        /\ AccountLine.isGroup a = false
                        /\ AccountLine.manualOverride a = false) failed
    /\ (forall result,
           map amounts failed
           = map amounts (fst (classifyAccounts G randomUUID accounts (Some result) g)))
    /\ (forall localeCompare customRegulations globalModel,
           statementGroups
             (groupedFinancials localeCompare customRegulations globalModel failed)
           = []).
Proof.
  intros G randomUUID accounts g failed. unfold failed, classifyAccounts.
  assert (F : Forall (fun a => AccountLine.type a = AccountType.UNCLASSIFIED
                               /\ AccountLine.category a = "Error"
                               /\ AccountLine.isGroup a = false
                               /\ AccountLine.manualOverride a = false)
                (fst (mapWithUUID G randomUUID
                        (fun acc _ uuid => unclassified acc uuid) accounts 0 g))).
  { apply (mapWithUUID_Forall G randomUUID (fun _ => True)).
    - intros acc index uuid _. repeat split.
    - apply Forall_forall. intros; exact I. }
  split; [apply mapWithUUID_length|]. split; [exact F|]. split.
  - intros result. apply mapWithUUID_map_ext. reflexivity.
  - intros lc cr gm.
    rewrite (groupedFinancials_ext lc cr gm _ []); [reflexivity|].
    intros t Ht. eapply filtered_other_type.
    + eapply Forall_impl; [|exact F]. intros a [Ha _]. exact Ha.
    + intros E. rewrite <- E in Ht. unfold statementSections in Ht. cbn in Ht.
      intuition discriminate.
Qed.

Lemma mapIndexed_ids {A : Type} (l : list A) :
  forall (i : Z) (f : A -> Z -> AccountSummary),
    (forall a k, summary_id (f a k) = k) ->
    forall k, In k (map summary_id (mapIndexed f i l)) ->
              i <= k < i + Z.of_nat (List.length l).
Proof.
  induction l as [|a l IH]; intros i f Hf k Hk; cbn in Hk; [destruct Hk|].
  destruct Hk as [Hk|Hk].
  - rewrite Hf in Hk. cbn [List.length]. lia.
  - specialize (IH (i + 1) f Hf k Hk). cbn [List.length]. lia.
Qed.

Lemma mapIndexed_length {A B : Type} (f : A -> Z -> B) (l : list A) :
  forall i, List.length (mapIndexed f i l) = List.length l.
Proof. induction l as [|a l IH]; intros i; cbn; [reflexivity | now rewrite IH]. Qed.

(** X12.  Only the first 500 raw lines are put to the classifier, under
    the ids 0 to 499.  When the answer names no id but those it was given,
    every line from the 501st on comes out of type SIN_CLASIFICAR, category
    ['Sin Clasificar'], and is no group line. *)
Theorem lines_beyond_500 :
  forall (G : Type) (randomUUID : G -> string * G)
         (accounts : list Partial.t) (result : list ClassificationItem) (g : G),
    (forall item, In item result ->
                  In (item_id item) (map summary_id (accountList accounts))) ->
    List.length (accountList accounts) = Nat.min 500 (List.length accounts)
    /\ forall i line,
         (500 <= i)%nat ->
         nth_error (fst (classifyAccounts G randomUUID accounts (Some result) g)) i
         = Some line ->
         AccountLine.type line = AccountType.UNCLASSIFIED
         /\ AccountLine.category line = "Sin Clasificar"
         /\ AccountLine.isGroup line = false.
Proof.
  intros G randomUUID accounts result g Hcoop. split.
  - unfold accountList. rewrite mapIndexed_length. apply length_firstn.
  - intros i line Hi Hline.
    assert (Hnone : Dict.get Z.eqb (classificationMap result) (Z.of_nat i) = None).
    { apply classificationMap_None. intros item Hitem E.
      apply Hcoop in Hitem. unfold accountList in Hitem.
      apply mapIndexed_ids in Hitem; [|reflexivity].
      rewrite length_firstn in Hitem. lia. }
    unfold classifyAccounts in Hline.
    destruct (nth_error accounts i) as [acc|] eqn:Hacc.
    + destruct (mapWithUUID_nth G randomUUID
                  (classified (classificationMap result)) accounts 0 g i acc Hacc)
        as [uuid [_ Hl]].
      rewrite Hl in Hline. injection Hline as <-.
      unfold classified. cbn. rewrite Hnone. cbn. repeat split.
    + exfalso. apply nth_error_None in Hacc.
      assert (Hlen : (i < List.length
                            (fst (mapWithUUID G randomUUID
                                    (classified (classificationMap result))
                                    accounts 0 g)))%nat)
        by (apply nth_error_Some; congruence).
      rewrite mapWithUUID_length in Hlen. lia.
Qed.

Lemma classification_kept (after : list ClassificationItem) :
  forall (m : Dict.t) (k : Z),
    (forall it, In it after -> item_id it <> k) ->
    Dict.get Z.eqb
      (fold_left
         (fun m item =>
            Dict.set Z.eqb m (item_id item)
              {| type := item_type item;
                 category := JS.str_or (item_category item) "Otros";
                 isGroup := item_isGroup item |})
         after m) k
    = Dict.get Z.eqb m k.
Proof.
  induction after as [|it after IH]; intros m k H; cbn [fold_left]; [reflexivity|].
  rewrite IH by (intros x Hx; apply H; now right).
  apply (get_set_other _ Z.eqb_spec). apply H. now left.
Qed.

Lemma classificationMap_last (before after : list ClassificationItem)
      (item : ClassificationItem) :
  (forall it, In it after -> item_id it <> item_id item) ->
  Dict.get Z.eqb (classificationMap (before ++ item :: after)%list) (item_id item)
  = Some {| type := item_type item;
            category := JS.str_or (item_category item) "Otros";
            isGroup := item_isGroup item |}.
Proof.
  intros H. unfold classificationMap. rewrite fold_left_app. cbn [fold_left].
  rewrite classification_kept by exact H.
  apply (get_set_same _ Z.eqb_spec).
Qed.

(** X13.  When the answer names an index more than once, the last object
    that names it counts.  Its labels go to the line of that index: the
    type it gives, or SIN_CLASIFICAR when it gives none; the category it
    gives, or ['Otros'] when it gives none; and its group flag. *)
Theorem last_answer_counts :
  forall (G : Type) (randomUUID : G -> string * G)
         (accounts : list Partial.t)
         (before after : list ClassificationItem) (item : ClassificationItem)
         (g : G) (i : nat) (acc : Partial.t),
    nth_error accounts i = Some acc ->
    item_id item = Z.of_nat i ->
    (forall it, In it after -> item_id it <> Z.of_nat i) ->
    exists line,
      nth_error (fst (classifyAccounts G randomUUID accounts
                        (Some (before ++ item :: after)%list) g)) i = Some line
      /\ AccountLine.type line = JS.str_or (item_type item) AccountType.UNCLASSIFIED
      /\ AccountLine.category line = JS.str_or (item_category item) "Otros"
      /\ AccountLine.isGroup line = item_isGroup item.
Proof.
  intros G randomUUID accounts before after item g i acc Hacc Hid Hafter.
  unfold classifyAccounts.
  destruct (mapWithUUID_nth G randomUUID
              (classified (classificationMap (before ++ item :: after)%list))
              accounts 0 g i acc Hacc) as [uuid [_ Hl]].
  eexists. split; [exact Hl|]. cbn [Z.add]. unfold classified.
  cbn [AccountLine.type AccountLine.category AccountLine.isGroup].
  rewrite <- Hid, classificationMap_last by (now rewrite Hid).
  cbn [option_map type category isGroup JS.or_else].
  split; [reflexivity|]. split.
  - unfold JS.str_or. destruct (JS.truthy_str (item_category item)) eqn:E.
    + now rewrite E.
    + reflexivity.
  - now destruct (item_isGroup item).
Qed.

(** X14.  A text of regulations of one to ten characters is taken into
    account by the statement but not by the classification: the request
    to the classifier is built as if the text were absent, while the
    categories are ordered as with a custom model.  The same holds for the
    global model. *)
Theorem short_regulations :
  forall (s : string) (other : option string),
    s <> "" ->
    (JS.length s <= 10)%nat ->
    activeLogic (Some s) other = activeLogic None other
    /\ activeLogic other (Some s) = activeLogic other None
    /\ hasCustomModel (Some s) other = true
    /\ hasCustomModel other (Some s) = true.
Proof.
  intros s other Hs Hlen.
  assert (L : longer_than_10 (Some s) = false).
  { unfold longer_than_10. apply andb_false_intro2. apply Nat.ltb_ge. exact Hlen. }
  assert (T : JS.truthy_str s = true).
  { unfold JS.truthy_str. apply negb_true_iff. now apply String.eqb_neq. }
  unfold activeLogic. rewrite L. cbn [longer_than_10].
  split; [reflexivity|]. split; [reflexivity|].
  unfold hasCustomModel. rewrite T. cbn [orb andb]. split; [reflexivity|].
  destruct s as [|c r]; [contradiction|]. cbn.
  apply orb_true_r.
Qed.

(* ================================================================== *)
(** * Further properties: the reading of numbers *)
(* ================================================================== *)

Lemma append_nil_r (s : string) : (s ++ "")%string = s.
Proof. induction s as [|c s IH]; cbn; [reflexivity | now rewrite IH]. Qed.

Lemma append_assoc (a b c : string) :
  ((a ++ b) ++ c)%string = (a ++ (b ++ c))%string.
Proof. induction a as [|x a IH]; cbn; [reflexivity | now rewrite IH]. Qed.

Lemma keep_numeric_app (a b : string) :
  JS.keep_numeric (a ++ b) = (JS.keep_numeric a ++ JS.keep_numeric b)%string.
Proof.
  induction a as [|c a IH]; cbn [append JS.keep_numeric]; [reflexivity|].
  destruct (JS.is_digit c || Ascii.eqb c "." || Ascii.eqb c "-"); cbn [append];
    now rewrite IH.
Qed.

Lemma keep_numeric_idem (s : string) :
  JS.keep_numeric (JS.keep_numeric s) = JS.keep_numeric s.
Proof.
  induction s as [|c s IH]; cbn [JS.keep_numeric]; [reflexivity|].
  destruct (JS.is_digit c || Ascii.eqb c "." || Ascii.eqb c "-") eqn:E;
    [|exact IH].
  cbn [JS.keep_numeric]. now rewrite E, IH.
Qed.

Lemma keep_numeric_digits (d : string) :
  all_digits d = true -> JS.keep_numeric d = d.
Proof.
  induction d as [|c d IH]; cbn [all_digits JS.keep_numeric]; [reflexivity|].
  intros H. apply andb_prop in H. destruct H as [Hc Hd].
  now rewrite Hc, IH.
Qed.

(** X15.  What is neither a digit, a point nor a minus sign has no part
    in the reading of a numeric cell: a cell reads the same with such a
    character taken out, wherever it stands, and the same as the text that
    the stripping leaves.  So currency signs, blanks, letters, brackets
    and commas (also a comma meant as the decimal mark) are passed over. *)
Theorem dropped_characters :
  forall (Number_toString : Q -> string) (before after : string) (c : ascii),
    dropped c = true ->
    parseNumber Number_toString (Str (before ++ String c after))
    = parseNumber Number_toString (Str (before ++ after))
    /\ (forall s, parseNumber Number_toString (Str (JS.keep_numeric s))
                   = parseNumber Number_toString (Str s)).
Proof.
  intros nts before after c Hc. unfold parseNumber. cbn [String_].
  assert (E : JS.keep_numeric (before ++ String c after)
              = JS.keep_numeric (before ++ after)).
  { rewrite !keep_numeric_app. cbn [JS.keep_numeric].
    unfold dropped in Hc. apply negb_true_iff in Hc. now rewrite Hc. }
  rewrite E. split; [reflexivity|].
  intros s. now rewrite keep_numeric_idem.
Qed.

Lemma no_sign (c : ascii) (r : string) :
  c <> "-"%char ->
  match String c r with
  | String "-" r' => (true, r')
  | _ => (false, String c r)
  end = (false, String c r).
Proof.
  intros H.
  destruct c as [[] [] [] [] [] [] [] []]; try reflexivity.
  exfalso. apply H. reflexivity.
Qed.

Lemma digit_not_sign (c : ascii) : JS.is_digit c = true -> c <> "-"%char.
Proof. intros H ->. discriminate H. Qed.

Lemma span_digits_app (d rest : string) :
  all_digits d = true -> no_digit_ahead rest ->
  JS.span_digits (d ++ rest) = (fst (JS.span_digits d), rest).
Proof.
  intros Hd Hrest. induction d as [|c d IH]; cbn [append].
  - destruct rest as [|x rest]; [reflexivity|]. cbn in *. now rewrite Hrest.
  - cbn [all_digits] in Hd. apply andb_prop in Hd. destruct Hd as [Hc Hd].
    cbn [JS.span_digits]. rewrite Hc, (IH Hd).
    destruct (JS.span_digits d). reflexivity.
Qed.

Lemma span_digits_all (d : string) :
  all_digits d = true -> JS.span_digits d = (fst (JS.span_digits d), "").
Proof.
  intros H. rewrite <- (append_nil_r d) at 1. now apply span_digits_app.
Qed.

(** The number read from a text that starts with digits [d], goes on
    with [rest] and has no minus sign in front. *)
Lemma parseFloat_unsigned (d rest : string) :
  all_digits d = true -> no_digit_ahead rest ->
  (d ++ rest)%string <> "" ->
  (forall r, (d ++ rest)%string <> String "-" r) ->
  JS.parseFloat (d ++ rest) =
  let ip := fst (JS.span_digits d) in
  let fp := match rest with
            | String "." r => fst (JS.span_digits r)
            | _ => []
            end in
  match ip, fp with
  | [], [] => None
  | _, _ =>
      Some (Qmake (JS.digits_value (ip ++ fp))
                  (Z.to_pos (10 ^ Z.of_nat (List.length fp))))
  end.
Proof.
  intros Hd Hrest Hne Hsign. unfold JS.parseFloat.
  destruct (d ++ rest)%string as [|c s] eqn:E; [contradiction|].
  rewrite no_sign by (intros ->; now apply (Hsign s)).
  rewrite <- E, span_digits_app by assumption. reflexivity.
Qed.

Lemma span_digits_nonneg (s : string) :
  Forall (fun x => 0 <= x) (fst (JS.span_digits s)).
Proof.
  induction s as [|c s IH]; cbn [JS.span_digits]; [constructor|].
  destruct (JS.is_digit c) eqn:E; [|constructor].
  destruct (JS.span_digits s) as [ds rest]. cbn [fst] in *.
  constructor; [|exact IH].
  unfold JS.is_digit in E. apply andb_prop in E. destruct E as [E _].
  apply Nat.leb_le in E. lia.
Qed.

Lemma digits_value_nonneg (ds : list Z) :
  Forall (fun x => 0 <= x) ds -> 0 <= JS.digits_value ds.
Proof.
  unfold JS.digits_value.
  assert (H : forall acc, 0 <= acc -> Forall (fun x => 0 <= x) ds ->
                          0 <= fold_left (fun a d => 10 * a + d) ds acc).
  { induction ds as [|d ds IH]; intros acc Hacc Hds; cbn [fold_left]; [exact Hacc|].
    inversion Hds; subst. apply IH; [lia | assumption]. }
  apply H. lia.
Qed.

Lemma span_digits_some (c : ascii) (d : string) :
  JS.is_digit c = true -> fst (JS.span_digits (String c d)) <> [].
Proof.
  intros H. cbn [JS.span_digits]. rewrite H.
  destruct (JS.span_digits d). discriminate.
Qed.

(** The number that a text of digits reads as. *)
Lemma parseFloat_digits (d : string) :
  all_digits d = true -> d <> "" ->
  JS.parseFloat d
  = Some (Qmake (JS.digits_value (fst (JS.span_digits d))) 1).
Proof.
  intros Hd Hne.
  pose proof (parseFloat_unsigned d "" Hd I) as P.
  rewrite append_nil_r in P. rewrite P; [| exact Hne |].
  - cbv zeta. destruct d as [|c d]; [contradiction|].
    cbn [all_digits] in Hd. apply andb_prop in Hd. destruct Hd as [Hc _].
    pose proof (span_digits_some c d Hc) as Hs.
    destruct (fst (JS.span_digits (String c d))) as [|x xs]; [contradiction|].
    now rewrite app_nil_r.
  - intros r ->. cbn in Hd. discriminate.
Qed.

(** The same text with something behind it that is no fraction. *)
Lemma parseFloat_digits_then (d : string) (c : ascii) (rest : string) :
  all_digits d = true -> d <> "" ->
  JS.is_digit c = false -> c <> "."%char ->
  JS.parseFloat (d ++ String c rest) = JS.parseFloat d.
Proof.
  intros Hd Hne Hc Hpoint.
  rewrite (parseFloat_digits d Hd Hne).
  rewrite (parseFloat_unsigned d (String c rest) Hd Hc).
  - cbv zeta.
    assert (F : match String c rest with
                | String "." r => fst (JS.span_digits r)
                | _ => []
                end = []).
    { destruct c as [[] [] [] [] [] [] [] []]; try reflexivity.
      exfalso. apply Hpoint. reflexivity. }
    rewrite F. destruct d as [|x d]; [contradiction|].
    cbn [all_digits] in Hd. apply andb_prop in Hd. destruct Hd as [Hx _].
    pose proof (span_digits_some x d Hx) as Hs.
    destruct (fst (JS.span_digits (String x d))) as [|y ys]; [contradiction|].
    now rewrite app_nil_r.
  - destruct d; [contradiction | discriminate].
  - intros r E. destruct d as [|x d]; [contradiction|].
    cbn [append] in E. injection E as -> _. cbn in Hd. discriminate.
Qed.

(** X16.  A minus sign counts only in front.  For a text of digits: with
    a minus sign in front the cell reads as the opposite number; with the
    minus sign behind, or with the digits in brackets (two ways of writing
    a negative amount), the cell reads as the number itself, which is not
    negative. *)
Theorem minus_counts_in_front :
  forall (Number_toString : Q -> string) (d : string),
    all_digits d = true ->
    d <> "" ->
    let read := fun s => parseNumber Number_toString (Str s) in
    (read ("-" ++ d) == - read d)%Q
    /\ read (d ++ "-") = read d
    /\ read ("(" ++ d ++ ")") = read d
    /\ (0 <= read d)%Q.
Proof.
  intros nts d Hd Hne read. unfold read, parseNumber. cbn [String_].
  assert (K : JS.keep_numeric d = d) by now apply keep_numeric_digits.
  assert (V : 0 <= JS.digits_value (fst (JS.span_digits d)))
    by apply digits_value_nonneg, span_digits_nonneg.
  split; [|split; [|split]].
  - rewrite K. change (JS.keep_numeric ("-" ++ d))
      with (String "-" (JS.keep_numeric d)). rewrite K.
    unfold JS.parseFloat_or_0.
    rewrite (parseFloat_digits d Hd Hne).
    unfold JS.parseFloat. rewrite (span_digits_all d Hd).
    destruct d as [|x d]; [contradiction|].
    cbn [all_digits] in Hd. apply andb_prop in Hd. destruct Hd as [Hx _].
    pose proof (span_digits_some x d Hx) as Hs.
    destruct (fst (JS.span_digits (String x d))) as [|y ys]; [contradiction|].
    rewrite app_nil_r. rewrite !or_else_0. reflexivity.
  - rewrite keep_numeric_app, K. cbn [JS.keep_numeric].
    change (JS.is_digit "-" || Ascii.eqb "-" "." || Ascii.eqb "-" "-") with true.
    cbv iota. unfold JS.parseFloat_or_0.
    rewrite parseFloat_digits_then; try assumption; try reflexivity.
    discriminate.
  - change (JS.keep_numeric ("(" ++ d ++ ")")) with (JS.keep_numeric (d ++ ")")).
    rewrite keep_numeric_app, K. cbn. now rewrite append_nil_r.
  - rewrite K. unfold JS.parseFloat_or_0.
    rewrite (parseFloat_digits d Hd Hne). cbn [JS.or_else].
    destruct (JS.truthy_num _); [|lra].
    unfold Qle. cbn. lia.
Qed.

Lemma parseFloat_point (d1 d2 tail : string) :
  all_digits d1 = true -> all_digits d2 = true -> no_digit_ahead tail ->
  JS.parseFloat (d1 ++ "." ++ d2 ++ tail) =
  let ip := fst (JS.span_digits d1) in
  let fp := fst (JS.span_digits d2) in
  match ip, fp with
  | [], [] => None
  | _, _ =>
      Some (Qmake (JS.digits_value (ip ++ fp))
                  (Z.to_pos (10 ^ Z.of_nat (List.length fp))))
  end.
Proof.
  intros H1 H2 Ht.
  rewrite (parseFloat_unsigned d1 ("." ++ d2 ++ tail) H1).
  - cbv zeta. cbn [append]. rewrite (span_digits_app d2 tail H2 Ht).
    cbn [fst]. reflexivity.
  - reflexivity.
  - destruct d1; discriminate.
  - intros r E. destruct d1 as [|x d1]; [discriminate|].
    cbn [append] in E. injection E as -> _. cbn in H1. discriminate.
Qed.

(** X17.  Only the first point is a decimal point.  For two texts of
    digits, what follows a second point behind [d1.d2], and what follows a
    minus sign behind it, is passed over: the cell reads as [d1.d2] does.
    So a number written with points between the thousands reads as its
    first group with the second as its fraction. *)
Theorem first_point_counts :
  forall (Number_toString : Q -> string) (d1 d2 rest : string),
    all_digits d1 = true ->
    all_digits d2 = true ->
    let read := fun s => parseNumber Number_toString (Str s) in
    read (d1 ++ "." ++ d2 ++ "." ++ rest) = read (d1 ++ "." ++ d2)
    /\ read (d1 ++ "." ++ d2 ++ "-" ++ rest) = read (d1 ++ "." ++ d2).
Proof.
  intros nts d1 d2 rest H1 H2 read. unfold read, parseNumber. cbn [String_].
  assert (K1 : JS.keep_numeric d1 = d1) by now apply keep_numeric_digits.
  assert (K2 : JS.keep_numeric d2 = d2) by now apply keep_numeric_digits.
  pose proof (parseFloat_point d1 d2 "" H1 H2 I) as P0.
  rewrite append_nil_r in P0. cbn [append] in P0.
  assert (P : forall tail, no_digit_ahead tail ->
                JS.parseFloat (d1 ++ String "." (d2 ++ tail))
                = JS.parseFloat (d1 ++ String "." d2)).
  { intros tail Ht. rewrite P0.
    exact (parseFloat_point d1 d2 tail H1 H2 Ht). }
  split.
  - rewrite !keep_numeric_app, K1, K2. cbn [JS.keep_numeric].
    change (JS.is_digit "." || Ascii.eqb "." "." || Ascii.eqb "." "-") with true.
    cbv iota. cbn [append]. unfold JS.parseFloat_or_0.
    rewrite (P (String "." (JS.keep_numeric rest))) by reflexivity.
    reflexivity.
  - rewrite !keep_numeric_app, K1, K2. cbn [JS.keep_numeric].
    change (JS.is_digit "." || Ascii.eqb "." "." || Ascii.eqb "." "-") with true.
    change (JS.is_digit "-" || Ascii.eqb "-" "." || Ascii.eqb "-" "-") with true.
    cbv iota. cbn [append]. unfold JS.parseFloat_or_0.
    rewrite (P (String "-" (JS.keep_numeric rest))) by reflexivity.
    reflexivity.
Qed.

Lemma span_digits_uint (d : Decimal.uint) (rest : string) :
  no_digit_ahead rest ->
  JS.span_digits (NilEmpty.string_of_uint d ++ rest) = (uint_digits d, rest).
Proof.
  intros Hr. induction d as [|d IH|d IH|d IH|d IH|d IH|d IH|d IH|d IH|d IH|d IH];
    cbn [NilEmpty.string_of_uint append uint_digits].
  - destruct rest as [|c rest]; [reflexivity|]. cbn in *. now rewrite Hr.
  - cbn [JS.span_digits]. change (JS.is_digit "0") with true. cbv iota. now rewrite IH.
  - cbn [JS.span_digits]. change (JS.is_digit "1") with true. cbv iota. now rewrite IH.
  - cbn [JS.span_digits]. change (JS.is_digit "2") with true. cbv iota. now rewrite IH.
  - cbn [JS.span_digits]. change (JS.is_digit "3") with true. cbv iota. now rewrite IH.
  - cbn [JS.span_digits]. change (JS.is_digit "4") with true. cbv iota. now rewrite IH.
  - cbn [JS.span_digits]. change (JS.is_digit "5") with true. cbv iota. now rewrite IH.
  - cbn [JS.span_digits]. change (JS.is_digit "6") with true. cbv iota. now rewrite IH.
  - cbn [JS.span_digits]. change (JS.is_digit "7") with true. cbv iota. now rewrite IH.
  - cbn [JS.span_digits]. change (JS.is_digit "8") with true. cbv iota. now rewrite IH.
  - cbn [JS.span_digits]. change (JS.is_digit "9") with true. cbv iota. now rewrite IH.
Qed.

Lemma all_digits_uint (d : Decimal.uint) :
  all_digits (NilEmpty.string_of_uint d) = true.
Proof. induction d; cbn; auto. Qed.

Lemma of_uint_acc_digits (d : Decimal.uint) :
  forall acc : positive,
    Zpos (Pos.of_uint_acc d acc)
    = fold_left (fun a x => 10 * a + x) (uint_digits d) (Zpos acc).
Proof.
  induction d; intros acc; cbn [Pos.of_uint_acc uint_digits fold_left];
    try reflexivity; rewrite IHd; f_equal; lia.
Qed.

Lemma of_uint_digits (d : Decimal.uint) :
  Z.of_N (Pos.of_uint d) = JS.digits_value (uint_digits d).
Proof.
  unfold JS.digits_value.
  induction d; cbn [Pos.of_uint uint_digits fold_left]; try reflexivity;
    try exact IHd; cbn [Z.of_N]; rewrite of_uint_acc_digits; reflexivity.
Qed.

Lemma to_uint_not_Nil (n : N) : N.to_uint n <> Decimal.Nil.
Proof.
  intros E. pose proof (DecimalN.Unsigned.of_to n) as H. rewrite E in H.
  cbn in H. subst n. discriminate E.
Qed.

Lemma decimal_text (n : N) :
  JS.decimal (Z.of_N n) = NilEmpty.string_of_uint (N.to_uint n)
  /\ all_digits (JS.decimal (Z.of_N n)) = true
  /\ JS.decimal (Z.of_N n) <> ""
  /\ JS.digits_value (fst (JS.span_digits (JS.decimal (Z.of_N n)))) = Z.of_N n.
Proof.
  assert (E : JS.decimal (Z.of_N n) = NilEmpty.string_of_uint (N.to_uint n)).
  { unfold JS.decimal. rewrite N2Z.id. unfold NilZero.string_of_uint.
    pose proof (to_uint_not_Nil n). destruct (N.to_uint n); congruence. }
  rewrite E. split; [reflexivity|]. split; [apply all_digits_uint|]. split.
  - pose proof (to_uint_not_Nil n). destruct (N.to_uint n); try congruence;
      discriminate.
  - rewrite <- (append_nil_r (NilEmpty.string_of_uint (N.to_uint n))).
    rewrite span_digits_uint by exact I. cbn [fst].
    rewrite <- of_uint_digits.
    change (Pos.of_uint (N.to_uint n)) with (N.of_uint (N.to_uint n)).
    now rewrite DecimalN.Unsigned.of_to.
Qed.

(** X18.  A whole number up to 2^53 written in decimal reads back as
    itself: a cell that holds the decimal numeral of such a number, as
    text or as a number that the host prints so, reads as that number, and
    with a minus sign in front as its opposite.  (Up to 2^53 every whole
    number is a number of the machine, so that reading the numeral gives
    the number itself.) *)
Theorem numeral_round_trip :
  forall (Number_toString : Q -> string) (n : N),
    (n <= 9007199254740992)%N ->
    let numeral := JS.decimal (Z.of_N n) in
    (parseNumber Number_toString (Str numeral) == inject_Z (Z.of_N n))%Q
    /\ (parseNumber Number_toString (Str ("-" ++ numeral))
        == - inject_Z (Z.of_N n))%Q
    /\ (forall x, Number_toString x = numeral ->
                  (parseNumber Number_toString (Num x) == inject_Z (Z.of_N n))%Q)
    /\ (parseNumber Number_toString (Str numeral) <= inject_Z (2 ^ 53))%Q.
Proof.
  intros nts n Hn numeral.
  destruct (decimal_text n) as [_ [Hd [Hne Hv]]]. fold numeral in Hd, Hne, Hv.
  assert (R : forall s, s = numeral ->
                (JS.parseFloat_or_0 (JS.keep_numeric s) == inject_Z (Z.of_N n))%Q).
  { intros s ->. rewrite keep_numeric_digits by exact Hd.
    unfold JS.parseFloat_or_0. rewrite (parseFloat_digits numeral Hd Hne).
    rewrite or_else_0, Hv. reflexivity. }
  split; [|split; [|split]].
  4:{ unfold parseNumber. cbn [String_]. rewrite (R numeral eq_refl).
      rewrite <- Zle_Qle. change (2 ^ 53) with (Z.of_N 9007199254740992).
      now apply N2Z.inj_le. }
  - unfold parseNumber. cbn [String_]. now apply R.
  - unfold parseNumber. cbn [String_].
    change (JS.keep_numeric ("-" ++ numeral))
      with (String "-" (JS.keep_numeric numeral)).
    rewrite keep_numeric_digits by exact Hd.
    unfold JS.parseFloat_or_0, JS.parseFloat.
    rewrite (span_digits_all numeral Hd).
    destruct numeral as [|c s] eqn:E; [contradiction|].
    assert (Hc : JS.is_digit c = true) by (cbn in Hd; now apply andb_prop in Hd).
    pose proof (span_digits_some c s Hc) as Hs.
    destruct (fst (JS.span_digits (String c s))) as [|y ys] eqn:F; [contradiction|].
    rewrite app_nil_r, or_else_0, Hv. reflexivity.
  - intros x Hx. unfold parseNumber. cbn [String_]. now apply R.
Qed.

(* ================================================================== *)
(** * Further properties: clients and imports *)
(* ================================================================== *)

Lemma saveClientData_absent (clients : list ClientData.t) (u : ClientData.t) :
  (forall c, In c clients -> ClientData.id c <> ClientData.id u) ->
  fst (App.saveClientData clients u) = clients.
Proof.
  intros H. unfold App.saveClientData. cbn [fst].
  induction clients as [|c l IH]; cbn [map]; [reflexivity|].
  destruct (String.eqb_spec (ClientData.id c) (ClientData.id u)) as [E|_].
  - exfalso. apply (H c); [now left | exact E].
  - f_equal. apply IH. intros x Hx. apply H. now right.
Qed.

Lemma saveClientData_app (l1 l2 : list ClientData.t) (u : ClientData.t) :
  fst (App.saveClientData (l1 ++ l2) u)
  = (fst (App.saveClientData l1 u) ++ fst (App.saveClientData l2 u))%list.
Proof. unfold App.saveClientData. cbn [fst]. apply map_app. Qed.

Lemma saveClientData_at (before after : list ClientData.t) (c u : ClientData.t) :
  ClientData.id c = ClientData.id u ->
  (forall x, In x (before ++ after)%list -> ClientData.id x <> ClientData.id u) ->
  fst (App.saveClientData (before ++ c :: after)%list u)
  = (before ++ u :: after)%list.
Proof.
  intros E H. rewrite saveClientData_app.
  rewrite saveClientData_absent by (intros x Hx; apply H, in_or_app; now left).
  f_equal. change (c :: after) with ([c] ++ after)%list.
  rewrite saveClientData_app.
  rewrite (saveClientData_absent after)
    by (intros x Hx; apply H, in_or_app; now right).
  unfold App.saveClientData. cbn. now rewrite E, String.eqb_refl.
Qed.

Lemma NoDup_ids_others (before after : list ClientData.t) (c : ClientData.t) :
  NoDup (map ClientData.id (before ++ c :: after)%list) ->
  forall x, In x (before ++ after)%list -> ClientData.id x <> ClientData.id c.
Proof.
  intros Hnd x Hx E. rewrite map_app in Hnd. cbn [map] in Hnd.
  apply NoDup_remove_2 in Hnd. apply Hnd. rewrite <- map_app, <- E.
  now apply in_map.
Qed.

(** X19.  Saving a client writes it over the entries of its id and over
    nothing else: the list keeps its length and its ids, in order; with
    distinct ids exactly the entry of that id is replaced; and when no
    entry has the id the list stays as it was, so that the client becomes
    the active one without being in the list. *)
Theorem saveClientData_by_id :
  forall (clients : list ClientData.t) (updatedClient : ClientData.t),
    let next := fst (App.saveClientData clients updatedClient) in
    map ClientData.id next = map ClientData.id clients
    /\ snd (App.saveClientData clients updatedClient) = updatedClient
    /\ (forall before c after,
           clients = (before ++ c :: after)%list ->
           ClientData.id c = ClientData.id updatedClient ->
           NoDup (map ClientData.id clients) ->
           next = (before ++ updatedClient :: after)%list)
    /\ ((forall c, In c clients -> ClientData.id c <> ClientData.id updatedClient) ->
        next = clients /\ ~ In updatedClient next).
Proof.
  intros clients u next. unfold next. split; [|split; [reflexivity|split]].
  - unfold App.saveClientData. cbn [fst]. rewrite map_map. apply map_ext.
    intros c. now destruct (String.eqb_spec (ClientData.id c) (ClientData.id u)).
  - intros before c after -> E Hnd. apply saveClientData_at; [exact E|].
    rewrite <- E. now apply NoDup_ids_others.
  - intros H. rewrite saveClientData_absent by exact H.
    split; [reflexivity|]. intros Hin. now apply (H u Hin).
Qed.

(** X20.  A new client is put at the end of the list under the id drawn,
    with no lines and no files; the form creates none when the name is
    empty.  When the id drawn is not yet in the list, the ids stay
    distinct, and saving a client under the new id replaces the last entry
    and nothing else. *)
Theorem handleCreateClient_then_save :
  forall (G : Type) (randomUUID : G -> string * G)
         (clients : list ClientData.t) (name cuit industry now : string) (g : G),
    (forall c, In c clients -> ClientData.id c <> fst (randomUUID g)) ->
    let created := fst (App.handleCreateClient G randomUUID clients
                                                name cuit industry now g) in
    let newClient := snd created in
    fst created = (clients ++ [newClient])%list
    /\ ClientData.id newClient = fst (randomUUID g)
    /\ ClientData.accounts newClient = []
    /\ ClientData.files newClient = []
    /\ (NoDup (map ClientData.id clients) ->
        NoDup (map ClientData.id (fst created)))
    /\ (forall u, ClientData.id u = ClientData.id newClient ->
                  fst (App.saveClientData (fst created) u) = (clients ++ [u])%list)
    /\ App.handleSubmit G randomUUID clients "" cuit industry now g = None.
Proof.
  intros G randomUUID clients name cuit industry now g Hfresh created newClient.
  unfold newClient, created, App.handleCreateClient.
  destruct (randomUUID g) as [uuid g1]. cbn [fst snd] in *.
  split; [reflexivity|]. split; [reflexivity|]. split; [reflexivity|].
  split; [reflexivity|]. split; [|split; [|reflexivity]].
  - intros Hnd. rewrite map_app. cbn [map ClientData.id].
    apply NoDup_app; [exact Hnd | repeat constructor; intros [] |].
    intros x Hx [<-|[]]. apply in_map_iff in Hx. destruct Hx as [c [E Hc]].
    now apply (Hfresh c Hc).
  - intros u Hu. cbn [ClientData.id] in Hu.
    apply saveClientData_at; [now rewrite Hu|].
    intros x Hx. rewrite app_nil_r in Hx. rewrite Hu. now apply Hfresh.
Qed.

Lemma processedFiles_acc (clients : list ClientData.t) :
  forall acc : nat,
    fold_left (fun a c => (a + List.length (ClientData.files c))%nat) clients acc
    = (acc + App.processedFiles clients)%nat.
Proof.
  unfold App.processedFiles.
  induction clients as [|c l IH]; intros acc; cbn [fold_left]; [lia|].
  rewrite IH, (IH (0 + _)%nat). lia.
Qed.

Lemma processedFiles_app (l1 l2 : list ClientData.t) :
  App.processedFiles (l1 ++ l2)
  = (App.processedFiles l1 + App.processedFiles l2)%nat.
Proof.
  unfold App.processedFiles at 1. rewrite fold_left_app.
  fold (App.processedFiles l1). apply processedFiles_acc.
Qed.

Lemma processedFiles_cons (c : ClientData.t) (l : list ClientData.t) :
  App.processedFiles (c :: l)
  = (List.length (ClientData.files c) + App.processedFiles l)%nat.
Proof. unfold App.processedFiles at 1. cbn [fold_left]. apply processedFiles_acc. Qed.

(** X21.  An import either goes through or changes nothing.  When the
    document cannot be read or yields no line, the lines stay as they
    were, nothing is saved, no id is drawn and an alert is shown.
    Otherwise the lines are replaced by as many lines as were extracted,
    none of them marked as a manual entry, whatever the lines were before;
    the client saved carries these lines and one more file, and keeps its
    id. *)
Theorem handleFinancialUpload_outcome :
  forall (G : Type) (randomUUID : G -> string * G)
         (client : ClientData.t) (accounts : list AccountLine.t)
         (fileName fileType now1 now2 : string)
         (parsed : option (list Partial.t))
         (response : option (list ClassificationItem)) (g : G),
    let run := handleFinancialUpload G randomUUID client accounts
                 fileName fileType now1 now2 parsed response g in
    let outcome := fst run in
    ((parsed = None \/ parsed = Some []) ->
     nextAccounts outcome = accounts /\ saved outcome = None
     /\ alerted outcome <> None /\ snd run = g)
    /\ (forall rawAccounts,
           parsed = Some rawAccounts -> rawAccounts <> [] ->
           List.length (nextAccounts outcome) = List.length rawAccounts
           /\ Forall (fun a => AccountLine.manualOverride a = false)
                     (nextAccounts outcome)
           /\ alerted outcome = None
           /\ (forall others,
                  nextAccounts
                    (fst (handleFinancialUpload G randomUUID client others
                            fileName fileType now1 now2 parsed response g))
                  = nextAccounts outcome)
           /\ exists updatedClient,
                saved outcome = Some updatedClient
                /\ ClientData.id updatedClient = ClientData.id client
                /\ ClientData.accounts updatedClient = nextAccounts outcome
                /\ ClientData.files updatedClient
                   = (ClientData.files client
                      ++ [ClientFile.mk fileName now1 fileType])%list).
Proof.
  intros G randomUUID client accounts fileName fileType now1 now2 parsed
         response g run outcome.
  unfold outcome, run, handleFinancialUpload. split.
  - intros [->| ->]; cbn; repeat split; discriminate.
  - intros raw -> Hne. destruct raw as [|r raw]; [contradiction|].
    cbn [List.length Nat.eqb].
    pose proof (mapWithUUID_length G randomUUID) as L.
    assert (M : Forall (fun a => AccountLine.manualOverride a = false)
                  (fst (classifyAccounts G randomUUID (r :: raw) response g))).
    { unfold classifyAccounts. destruct response;
        apply (mapWithUUID_Forall G randomUUID (fun _ => True));
        try (intros; reflexivity); apply Forall_forall; intros; exact I. }
    assert (Len : List.length (fst (classifyAccounts G randomUUID (r :: raw) response g))
                  = List.length (r :: raw)).
    { unfold classifyAccounts. destruct response; apply L. }
    destruct (classifyAccounts G randomUUID (r :: raw) response g) as [lines g1].
    cbn [fst snd nextAccounts saved alerted] in *.
    split; [exact Len|]. split; [exact M|]. split; [reflexivity|].
    split; [reflexivity|]. eexists. repeat split.
Qed.

(** X22.  The count of files on the dashboard goes up by one with each
    import that goes through: when the client is in the list, the ids of
    the list are distinct and the import saves a client, saving it makes
    the sum of the numbers of files one more than it was. *)
Theorem import_counts_one_file :
  forall (G : Type) (randomUUID : G -> string * G)
         (before after : list ClientData.t) (client : ClientData.t)
         (accounts : list AccountLine.t)
         (fileName fileType now1 now2 : string)
         (parsed : option (list Partial.t))
         (response : option (list ClassificationItem)) (g : G)
         (updatedClient : ClientData.t),
    NoDup (map ClientData.id (before ++ client :: after)%list) ->
    saved (fst (handleFinancialUpload G randomUUID client accounts
                  fileName fileType now1 now2 parsed response g))
    = Some updatedClient ->
    App.processedFiles
      (fst (App.saveClientData (before ++ client :: after)%list updatedClient))
    = S (App.processedFiles (before ++ client :: after)%list).
Proof.
  intros G randomUUID before after client accounts fileName fileType now1 now2
         parsed response g u Hnd Hsaved.
  assert (Hu : ClientData.id u = ClientData.id client
               /\ List.length (ClientData.files u)
                  = S (List.length (ClientData.files client))).
  { unfold handleFinancialUpload in Hsaved.
    destruct parsed as [raw|]; [|discriminate].
    destruct (List.length raw =? 0)%nat; [discriminate|].
    destruct (classifyAccounts G randomUUID raw response g) as [lines g1].
    cbn in Hsaved. injection Hsaved as <-. cbn.
    split; [reflexivity|]. rewrite length_app. cbn. lia. }
  destruct Hu as [Hid Hfiles].
  rewrite saveClientData_at.
  - rewrite !processedFiles_app, !processedFiles_cons, Hfiles. lia.
  - now rewrite Hid.
  - rewrite Hid. now apply NoDup_ids_others.
Qed.

(* ================================================================== *)
(** * Further properties: trimming and cleaning of texts *)
(* ================================================================== *)

Lemma strip_prefix_spec (p s r : string) :
  JS.strip_prefix p s = Some r <-> s = (p ++ r)%string.
Proof.
  revert s. induction p as [|a p IH]; intros s; cbn [JS.strip_prefix append].
  - split; [now intros [= ->] | now intros ->].
  - destruct s as [|b s]; [split; discriminate|].
    destruct (Ascii.eqb_spec a b) as [->|Hne].
    + rewrite IH. split; [now intros -> | now intros [= ->]].
    + split; [discriminate | intros [= E _]; congruence].
Qed.

Lemma strip_any_Some (ps : list string) (s r : string) :
  JS.strip_any ps s = Some r ->
  exists p, In p ps /\ s = (p ++ r)%string.
Proof.
  induction ps as [|p ps IH]; cbn [JS.strip_any]; [discriminate|].
  destruct (JS.strip_prefix p s) as [r'|] eqn:E.
  - intros [= ->]. exists p. split; [now left | now apply strip_prefix_spec].
  - intros H. destruct (IH H) as [q [Hq Hs]]. exists q. split; [now right | exact Hs].
Qed.

Lemma strip_any_None (ps : list string) (s : string) :
  JS.strip_any ps s = None ->
  forall p r, In p ps -> s <> (p ++ r)%string.
Proof.
  induction ps as [|q ps IH]; cbn [JS.strip_any]; intros H p r Hp; [destruct Hp|].
  destruct (JS.strip_prefix q s) as [r'|] eqn:E; [discriminate|].
  destruct Hp as [->|Hp]; [|now apply IH].
  intros Hs. apply strip_prefix_spec in Hs. congruence.
Qed.

Lemma length_append (a b : string) :
  String.length (a ++ b) = (String.length a + String.length b)%nat.
Proof. induction a as [|c a IH]; cbn; [reflexivity | now rewrite IH]. Qed.

Lemma drop_while_done (ws : list string) :
  Forall (fun w => w <> "") ws ->
  forall fuel s, (String.length s <= fuel)%nat ->
                 JS.strip_any ws (JS.drop_while_ws ws fuel s) = None.
Proof.
  intros Hws. induction fuel as [|fuel IH]; intros s Hlen; cbn [JS.drop_while_ws].
  - destruct s; [|cbn in Hlen; lia].
    destruct (JS.strip_any ws "") as [r|] eqn:E; [|reflexivity].
    apply strip_any_Some in E. destruct E as [p [Hp Hs]].
    rewrite Forall_forall in Hws. specialize (Hws p Hp).
    destruct p; [contradiction | discriminate].
  - destruct (JS.strip_any ws s) as [r|] eqn:E; [|exact E].
    apply IH. apply strip_any_Some in E. destruct E as [p [Hp ->]].
    rewrite Forall_forall in Hws. specialize (Hws p Hp).
    rewrite length_append in Hlen. destruct p; [contradiction|]. cbn in Hlen. lia.
Qed.

Lemma drop_while_suffix (ws : list string) :
  forall fuel s, exists pre, s = (pre ++ JS.drop_while_ws ws fuel s)%string.
Proof.
  induction fuel as [|fuel IH]; intros s; cbn [JS.drop_while_ws].
  - now exists "".
  - destruct (JS.strip_any ws s) as [r|] eqn:E; [|now exists ""].
    apply strip_any_Some in E. destruct E as [p [_ ->]].
    destruct (IH r) as [pre Hpre]. exists (p ++ pre)%string.
    rewrite append_assoc. now rewrite <- Hpre.
Qed.

Lemma rev_string_acc (s : string) :
  forall acc, JS.rev_string acc s = (JS.reverse s ++ acc)%string.
Proof.
  unfold JS.reverse. induction s as [|c s IH]; intros acc; cbn [JS.rev_string].
  - reflexivity.
  - rewrite IH, (IH (String c "")), append_assoc. reflexivity.
Qed.

Lemma reverse_cons (c : ascii) (s : string) :
  JS.reverse (String c s) = (JS.reverse s ++ String c "")%string.
Proof. unfold JS.reverse at 1. cbn [JS.rev_string]. apply rev_string_acc. Qed.

Lemma reverse_app (a b : string) :
  JS.reverse (a ++ b) = (JS.reverse b ++ JS.reverse a)%string.
Proof.
  induction a as [|c a IH]; cbn [append].
  - now rewrite append_nil_r.
  - now rewrite !reverse_cons, IH, append_assoc.
Qed.

Lemma reverse_involutive (s : string) : JS.reverse (JS.reverse s) = s.
Proof.
  induction s as [|c s IH]; [reflexivity|].
  now rewrite reverse_cons, reverse_app, IH.
Qed.

Lemma whiteSpace_not_empty : Forall (fun w => w <> "") JS.whiteSpace.
Proof. unfold JS.whiteSpace. cbn. repeat constructor; discriminate. Qed.

Lemma whiteSpace_reversed_not_empty :
  Forall (fun w => w <> "") (map JS.reverse JS.whiteSpace).
Proof. unfold JS.whiteSpace. cbn. repeat constructor; discriminate. Qed.

Lemma trimStart_spec (s : string) :
  ~ starts_with_space (JS.trimStart s)
  /\ exists pre, s = (pre ++ JS.trimStart s)%string.
Proof.
  unfold JS.trimStart. split; [|apply drop_while_suffix].
  intros [w [rest [Hw E]]].
  pose proof (drop_while_done _ whiteSpace_not_empty (String.length s) s
                              (Nat.le_refl _)) as D.
  exact (strip_any_None _ _ D w rest Hw E).
Qed.

Lemma trimEnd_spec (s : string) :
  ~ ends_with_space (JS.trimEnd s)
  /\ exists post, s = (JS.trimEnd s ++ post)%string.
Proof.
  unfold JS.trimEnd. cbv zeta.
  set (r := JS.reverse s).
  set (u := JS.drop_while_ws (map JS.reverse JS.whiteSpace) (String.length r) r).
  split.
  - intros [w [rest [Hw E]]].
    pose proof (drop_while_done _ whiteSpace_reversed_not_empty
                                (String.length r) r (Nat.le_refl _)) as D.
    fold u in D.
    apply (strip_any_None _ _ D (JS.reverse w) (JS.reverse rest)).
    + now apply in_map.
    + rewrite <- reverse_app, <- E. now rewrite reverse_involutive.
  - destruct (drop_while_suffix (map JS.reverse JS.whiteSpace) (String.length r) r)
      as [pre Hpre]. fold u in Hpre.
    exists (JS.reverse pre).
    rewrite <- reverse_app, <- Hpre. unfold r. now rewrite reverse_involutive.
Qed.

(** What [trim] gives is a stretch of the text that neither starts nor
    ends with white space. *)
Lemma trim_spec (s : string) :
  ~ starts_with_space (JS.trim s)
  /\ ~ ends_with_space (JS.trim s)
  /\ exists pre post, s = (pre ++ JS.trim s ++ post)%string.
Proof.
  unfold JS.trim.
  destruct (trimStart_spec s) as [Hs [pre Hpre]].
  destruct (trimEnd_spec (JS.trimStart s)) as [He [post Hpost]].
  split; [|split].
  - intros [w [rest [Hw E]]]. apply Hs. exists w, (rest ++ post)%string.
    split; [exact Hw|]. rewrite Hpost at 1. rewrite E. apply append_assoc.
  - exact He.
  - exists pre, post. now rewrite <- Hpost.
Qed.

(** X23.  The names of the extracted lines are trimmed: the name of every
    line is a text that is not empty and neither starts nor ends with a
    white space character. *)
Theorem extracted_names_trimmed :
  forall (Number_toString : Q -> string) (mapping : ColumnMapping)
         (rows : list row),
    Forall
      (fun line =>
         exists name,
           Partial.name line = Some name
           /\ name <> ""
           /\ ~ starts_with_space name
           /\ ~ ends_with_space name)
      (parseFinancialDocument Number_toString mapping rows).
Proof.
  intros nts mapping rows. apply Forall_forall. intros line Hin.
  unfold parseFinancialDocument in Hin. rewrite extractLoop_acc in Hin.
  cbn [app] in Hin. apply in_flat_map in Hin. destruct Hin as [r [_ Hl]].
  unfold contribution in Hl. destruct r as [cells|]; [|destruct Hl].
  rewrite extractRow_cells in Hl.
  destruct (JS.truthy_str (rowName nts mapping cells)) eqn:T; [|destruct Hl].
  destruct Hl as [<-|[]]. eexists. split; [reflexivity|].
  split.
  - intros E. rewrite E in T. discriminate.
  - unfold rowName in *. destruct (-1 <? nameIndex mapping); [|discriminate].
    destruct (trim_spec (String_or_empty nts (at_index cells (nameIndex mapping))))
      as [A [B _]]. split; assumption.
Qed.

Lemma drop_while_parts (ws : list string) :
  forall fuel s,
    exists l, Forall (fun w => In w ws) l
              /\ s = (fold_right append "" l ++ JS.drop_while_ws ws fuel s)%string.
Proof.
  induction fuel as [|fuel IH]; intros s; cbn [JS.drop_while_ws].
  - exists []. split; [constructor | reflexivity].
  - destruct (JS.strip_any ws s) as [r|] eqn:E.
    + apply strip_any_Some in E. destruct E as [p [Hp ->]].
      destruct (IH r) as [l [Hl Hr]]. exists (p :: l).
      split; [now constructor|]. cbn [fold_right].
      rewrite append_assoc. now rewrite <- Hr.
    + exists []. split; [constructor | reflexivity].
Qed.

Lemma reverse_parts (l : list string) :
  JS.reverse (fold_right append "" l)
  = fold_right append "" (rev (map JS.reverse l)).
Proof.
  induction l as [|w l IH]; [reflexivity|].
  cbn [fold_right map rev]. rewrite reverse_app, IH.
  generalize (rev (map JS.reverse l)). intros m.
  induction m as [|x m IHm]; cbn [fold_right app].
  - now rewrite append_nil_r.
  - now rewrite append_assoc, IHm.
Qed.

(** What [trim] takes away is white space, and it takes all of it. *)
Lemma trim_parts (s : string) :
  exists pre post,
    s = (pre ++ JS.trim s ++ post)%string
    /\ blank pre /\ blank post
    /\ ~ starts_with_space (JS.trim s)
    /\ ~ ends_with_space (JS.trim s).
Proof.
  destruct (trim_spec s) as [Hs [He _]].
  unfold JS.trim in *.
  destruct (drop_while_parts JS.whiteSpace (String.length s) s) as [l1 [H1 E1]].
  fold (JS.trimStart s) in E1.
  set (t := JS.trimStart s) in *.
  destruct (drop_while_parts (map JS.reverse JS.whiteSpace)
                             (String.length (JS.reverse t)) (JS.reverse t))
    as [l2 [H2 E2]].
  exists (fold_right append "" l1), (fold_right append "" (rev (map JS.reverse l2))).
  split; [|split; [|split; [|split]]]; try assumption.
  - rewrite E1 at 1. f_equal.
    rewrite <- (reverse_involutive t) at 1. rewrite E2 at 1.
    rewrite reverse_app, reverse_parts. reflexivity.
  - now exists l1.
  - exists (rev (map JS.reverse l2)). split; [|reflexivity].
    apply Forall_rev. apply Forall_forall. intros w Hw.
    apply in_map_iff in Hw. destruct Hw as [x [<- Hx]].
    rewrite Forall_forall in H2. apply H2 in Hx.
    apply in_map_iff in Hx. destruct Hx as [y [<- Hy]].
    now rewrite reverse_involutive.
Qed.

Lemma parseFloat_or_0_cases (s : string) :
  (JS.parseFloat s = None -> JS.parseFloat_or_0 s = 0%Q)
  /\ (forall x, JS.parseFloat s = Some x -> (JS.parseFloat_or_0 s == x)%Q).
Proof.
  unfold JS.parseFloat_or_0. split.
  - now intros ->.
  - intros x ->. cbn [JS.or_else]. apply num_or_0.
Qed.

(** C8.  The extraction is total and lenient.  The rows from [startRow] on
    are gone through in order.  The lines extracted are, one for one and in
    that order, those of the rows that are arrays with a cell and whose
    name, the text of the cell of the name column trimmed, is not empty: a
    hole, an empty row, a mapping without name column and a name cell that
    is absent, empty or blank add nothing.  The line carries that name,
    which is the text without the white space around it.  With a debit and
    a credit column its debit and credit are the numbers read from those
    cells, otherwise with a balance column its balance is the number read
    from that cell; the number read is what [parseFloat] makes of the text
    stripped of everything but digits, ['.'] and ['-'], and zero when it
    makes nothing of it.  There are at most as many lines as rows.  On a
    table with a header, a blank name, a hole, an empty row, an absent
    name and a cell ['n/a'], two lines come out, the one of ['n/a'] with
    zero amounts. *)
Theorem extraction_total_lenient :
  forall (Number_toString : Q -> string) (mapping : ColumnMapping)
         (rows : list row),
    let lines := parseFinancialDocument Number_toString mapping rows in
    let visited := skipn (Z.to_nat (startRow mapping)) rows in
    let nameOf := fun cells =>
      JS.trim (String_or_empty Number_toString (at_index cells (nameIndex mapping))) in
    let named := fun r : row =>
      match r with
      | Some (c :: cells) =>
          (-1 <? nameIndex mapping) && negb (nameOf (c :: cells) =? "")%string
      | _ => false
      end in
    let read := fun c : cell =>
      JS.parseFloat_or_0 (JS.keep_numeric (String_ Number_toString c)) in
    Forall2
      (fun r line =>
         exists cells,
           r = Some cells
           /\ Partial.name line = Some (nameOf cells)
           /\ ((-1 <? debitIndex mapping) && (-1 <? creditIndex mapping) = true ->
               Partial.debit line = Some (read (at_index cells (debitIndex mapping)))
               /\ Partial.credit line
                  = Some (read (at_index cells (creditIndex mapping))))
           /\ ((-1 <? debitIndex mapping) && (-1 <? creditIndex mapping) = false ->
               -1 < balanceIndex mapping ->
               Partial.balance line
               = Some (read (at_index cells (balanceIndex mapping)))))
      (filter named visited) lines
    /\ (forall s,
           (JS.parseFloat s = None -> JS.parseFloat_or_0 s = 0%Q)
           /\ (forall x, JS.parseFloat s = Some x -> (JS.parseFloat_or_0 s == x)%Q))
    /\ (forall s, exists pre post,
           s = (pre ++ JS.trim s ++ post)%string
           /\ blank pre /\ blank post
           /\ ~ starts_with_space (JS.trim s)
           /\ ~ ends_with_space (JS.trim s))
    /\ (List.length lines <= List.length rows)%nat
    /\ parseFinancialDocument Number_toString sampleMapping
         [ Some [Str "Cuenta"; Str "Saldo"];
           Some [Str "  Banco "; Str "n/a"];
           None;
           Some [];
           Some [Str "   "; Str "7"];
           Some [Null; Str "8"];
           Some [Str "Caja"; Str "$ 1,200.50"] ]
       = [ Partial.mk (Some "") (Some "Banco") (Some 0%Q) (Some 0%Q) (Some 0%Q);
           Partial.mk (Some "") (Some "Caja")
                      (Some (120050 # 100)) (Some 0%Q) (Some (120050 # 100)) ].
Proof.
  intros nts mapping rows. cbv zeta.
  assert (E : parseFinancialDocument nts mapping rows
              = flat_map (contribution nts mapping)
                         (skipn (Z.to_nat (startRow mapping)) rows)).
  { unfold parseFinancialDocument. now rewrite extractLoop_acc. }
  split; [|split; [|split; [|split]]].
  - rewrite E. clear E.
    induction (skipn (Z.to_nat (startRow mapping)) rows) as [|r l IH];
      [constructor|].
    cbn [filter flat_map]. destruct r as [[|c cells]|]; try exact IH.
    unfold contribution at 1. cbn [extractRow].
    unfold rowName, JS.truthy_str.
    destruct (-1 <? nameIndex mapping) eqn:Hn; cbn [andb]; [|exact IH].
    destruct (negb (JS.trim (String_or_empty nts
                               (at_index (c :: cells) (nameIndex mapping))) =? "")%string)
      eqn:Ht; [|exact IH].
    unfold rowAmounts, parseNumber.
    destruct ((-1 <? debitIndex mapping) && (-1 <? creditIndex mapping)) eqn:Hb.
    + cbn [app]. constructor; [|exact IH].
      exists (c :: cells). cbn. repeat split; try reflexivity.
      intros; discriminate.
    + destruct (-1 <? balanceIndex mapping) eqn:Hbal.
      * destruct (Qlt_le_dec 0 (JS.parseFloat_or_0
                                  (JS.keep_numeric
                                     (String_ nts (at_index (c :: cells)
                                                            (balanceIndex mapping))))));
          cbn [app]; (constructor; [|exact IH]);
          exists (c :: cells); cbn; repeat split; try reflexivity;
          intros; discriminate.
      * cbn [app]. constructor; [|exact IH].
        exists (c :: cells). cbn. repeat split; try reflexivity;
          try (intros; discriminate).
        intros _ Hlt. apply Z.ltb_ge in Hbal. lia.
  - apply parseFloat_or_0_cases.
  - apply trim_parts.
  - rewrite E.
    assert (H : forall l, (List.length (flat_map (contribution nts mapping) l)
                           <= List.length l)%nat).
    { induction l as [|r l IH]; cbn [flat_map]; [constructor|].
      rewrite length_app. unfold contribution at 1.
      destruct (extractRow nts mapping r); cbn; lia. }
    eapply Nat.le_trans; [apply H|].
    rewrite length_skipn. lia.
  - reflexivity.
Qed.

Lemma fence_cases (s : string) :
  (exists rest, s = ("```" ++ rest)%string)
  \/ (String.prefix "```" s = false /\ (leading_backticks s < 3)%nat).
Proof.
  destruct s as [|c1 s]; [right; split; [reflexivity | cbn; lia]|].
  destruct (Ascii.eqb_spec c1 "`") as [->|N1].
  2:{ right. cbn [String.prefix leading_backticks].
      destruct (ascii_dec "`" c1) as [E|_]; [congruence|].
      apply Ascii.eqb_neq in N1. rewrite N1. split; [reflexivity | lia]. }
  destruct s as [|c2 s]; [right; split; [reflexivity | cbn; lia]|].
  destruct (Ascii.eqb_spec c2 "`") as [->|N2].
  2:{ right. cbn [String.prefix leading_backticks].
      destruct (ascii_dec "`" "`") as [_|N]; [|congruence].
      destruct (ascii_dec "`" c2) as [E|_]; [congruence|].
      apply Ascii.eqb_neq in N2. rewrite N2. cbn. split; [reflexivity | lia]. }
  destruct s as [|c3 s]; [right; split; [reflexivity | cbn; lia]|].
  destruct (Ascii.eqb_spec c3 "`") as [->|N3].
  2:{ right. cbn [String.prefix leading_backticks].
      destruct (ascii_dec "`" "`") as [_|N]; [|congruence].
      destruct (ascii_dec "`" c3) as [E|_]; [congruence|].
      apply Ascii.eqb_neq in N3. rewrite N3. cbn. split; [reflexivity | lia]. }
  left. now exists s.
Qed.

Lemma removeAll_fence (rest : string) :
  JS.removeAll "```" ("```" ++ rest) = JS.removeAll "```" rest.
Proof. destruct rest; reflexivity. Qed.

Lemma removeAll_json_head (rest : string) :
  JS.removeAll "```json" ("```json" ++ rest) = JS.removeAll "```json" rest.
Proof. destruct rest; reflexivity. Qed.

Lemma removeAll_step (p : string) (c : ascii) (r : string) :
  p <> "" ->
  String.prefix p (String c r) = false ->
  JS.removeAll p (String c r) = String c (JS.removeAll p r).
Proof.
  intros Hp H. unfold JS.removeAll. cbn [JS.replaceAll_from].
  destruct p; [contradiction|]. now rewrite H.
Qed.

(** What is left of a text without its fences never completes a run of
    three backticks. *)
Lemma removeAll_short_runs :
  forall n s k,
    (String.length s <= n)%nat ->
    (k + leading_backticks s mod 3 < 3)%nat ->
    short_runs k (JS.removeAll "```" s) = true.
Proof.
  induction n as [|n IH]; intros s k Hlen Hk.
  - destruct s; [reflexivity | cbn in Hlen; lia].
  - destruct (fence_cases s) as [[rest ->]|[Hp Hl]].
    + rewrite removeAll_fence.
      change (leading_backticks ("```" ++ rest))
        with (3 + leading_backticks rest)%nat in Hk.
      change (String.length ("```" ++ rest))
        with (3 + String.length rest)%nat in Hlen.
      apply IH; [lia|].
      replace (leading_backticks rest mod 3)%nat
        with ((3 + leading_backticks rest) mod 3)%nat; [exact Hk|].
      rewrite <- (Nat.Div0.mod_add (leading_backticks rest) 1 3).
      f_equal. lia.
    + destruct s as [|c r]; [reflexivity|].
      rewrite removeAll_step by (exact Hp || discriminate).
      cbn [short_runs]. cbn [leading_backticks] in Hk, Hl.
      cbn [String.length] in Hlen.
      destruct (Ascii.eqb c "`").
      * rewrite (Nat.mod_small _ _ Hl) in Hk.
        pose proof (Nat.Div0.mod_le (leading_backticks r) 3) as Hm.
        apply andb_true_intro. split.
        -- apply Nat.ltb_lt. lia.
        -- apply IH; lia.
      * apply IH; [lia|].
        pose proof (Nat.mod_upper_bound (leading_backticks r) 3). lia.
Qed.

Lemma short_runs_fence (before after : string) :
  forall k, short_runs k (before ++ "```" ++ after) = false.
Proof.
  induction before as [|c before IH]; intros k.
  - destruct k as [|[|k]]; reflexivity.
  - cbn [append short_runs]. rewrite !IH.
    destruct (Ascii.eqb c "`"); [apply andb_false_r | reflexivity].
Qed.

Lemma replaceAll_no_backtick (rest s : string) :
  has_backtick s = false ->
  JS.removeAll (String "`" rest) s = s.
Proof.
  unfold JS.removeAll.
  induction s as [|c s IH]; intros H; [reflexivity|].
  cbn [has_backtick] in H. apply orb_false_elim in H. destruct H as [Hc Hs].
  cbn [JS.replaceAll_from String.prefix].
  destruct (ascii_dec "`" c) as [<-|_]; [discriminate|].
  now rewrite IH.
Qed.

Lemma removeAll_json_tail (body : string) :
  has_backtick body = false ->
  JS.removeAll "```json" (body ++ "```") = (body ++ "```")%string.
Proof.
  unfold JS.removeAll.
  induction body as [|c s IH]; intros H; [reflexivity|].
  cbn [has_backtick] in H. apply orb_false_elim in H. destruct H as [Hc Hs].
  cbn [append JS.replaceAll_from String.prefix].
  destruct (ascii_dec "`" c) as [<-|_]; [discriminate|].
  now rewrite IH.
Qed.

Lemma removeAll_fence_tail (body : string) :
  has_backtick body = false ->
  JS.removeAll "```" (body ++ "```") = body.
Proof.
  unfold JS.removeAll.
  induction body as [|c s IH]; intros H; [reflexivity|].
  cbn [has_backtick] in H. apply orb_false_elim in H. destruct H as [Hc Hs].
  cbn [append JS.replaceAll_from String.prefix].
  destruct (ascii_dec "`" c) as [<-|_]; [discriminate|].
  now rewrite IH.
Qed.

(** X24.  What [cleanJsonString] returns holds no run of three backticks
    and neither starts nor ends with a white space character, whatever the
    text it is given. *)
Theorem cleanJsonString_clean :
  forall str : string,
    ~ has_fence (cleanJsonString str)
    /\ ~ starts_with_space (cleanJsonString str)
    /\ ~ ends_with_space (cleanJsonString str).
Proof.
  intros str. unfold cleanJsonString.
  set (t := JS.removeAll "```" (JS.removeAll "```json" str)).
  destruct (trim_spec t) as [Hs [He [pre [post Ht]]]].
  split; [|split; assumption].
  intros [before [after E]].
  assert (R : short_runs 0 t = true).
  { apply (removeAll_short_runs (String.length (JS.removeAll "```json" str)));
      [lia|].
    pose proof (Nat.mod_upper_bound
                  (leading_backticks (JS.removeAll "```json" str)) 3). lia. }
  rewrite Ht, E in R.
  replace (pre ++ (before ++ "```" ++ after) ++ post)%string
    with ((pre ++ before) ++ "```" ++ (after ++ post))%string in R.
  - rewrite short_runs_fence in R. discriminate.
  - rewrite !append_assoc. reflexivity.
Qed.

(** X25.  A body without backticks comes back trimmed from
    [cleanJsonString], whether it is given as it is or wrapped in a json
    fence. *)
Theorem cleanJsonString_unwraps :
  forall body : string,
    has_backtick body = false ->
    cleanJsonString body = JS.trim body
    /\ cleanJsonString ("```json" ++ body ++ "```") = JS.trim body.
Proof.
  intros body H. unfold cleanJsonString. split.
  - now rewrite !(replaceAll_no_backtick _ body H).
  - rewrite removeAll_json_head, (removeAll_json_tail body H).
    now rewrite (removeAll_fence_tail body H).
Qed.

Lemma cleanJsonString_unwraps_witness :
  has_backtick " {} " = false
  /\ cleanJsonString "```json {} ```" = "{}".
Proof.
  split; [reflexivity|].
  exact (proj2 (cleanJsonString_unwraps " {} " eq_refl)).
Defined.

Lemma filter_map_comm {A B : Type} (f : B -> bool) (g : A -> B) (l : list A) :
  filter f (map g l) = map g (filter (fun a => f (g a)) l).
Proof.
  induction l as [|a l IH]; cbn [map filter]; [reflexivity|].
  rewrite IH. now destruct (f (g a)).
Qed.

Lemma filtered_opposite (accounts : list AccountLine.t) (t : AccountType) :
  filtered (map opposite accounts) t = map opposite (filtered accounts t).
Proof.
  unfold filtered. rewrite filter_map_comm. f_equal.
  apply filter_ext. intros a. now destruct a.
Qed.

Lemma total_of_opposite (l : list AccountLine.t) :
  (total_of (map AccountLine.balance (map opposite l))
   == - total_of (map AccountLine.balance l))%Q.
Proof.
  induction l as [|a l IH]; cbn [map].
  - change (total_of []) with 0%Q. ring.
  - rewrite !total_of_cons, IH. destruct a. cbn. ring.
Qed.

Lemma section_total_opposite lc cr gm (accounts : list AccountLine.t)
      (t : AccountType) :
  (sum_by Group.total (groupByTypeAndCategory lc cr gm (map opposite accounts) t)
   == - sum_by Group.total (groupByTypeAndCategory lc cr gm accounts t))%Q.
Proof.
  rewrite !section_total, filtered_opposite. apply total_of_opposite.
Qed.

(** X26.  Turning the sign of every balance turns the sign of the five
    section totals and leaves the net result as it is; the consistency
    check reports a finding for the one list exactly when it does for the
    other. *)
Theorem sign_convention :
  forall (localeCompare : string -> string -> Z)
         (Number_toString : Q -> string)
         (customRegulations globalModel : option string)
         (accounts : list AccountLine.t),
    let st := groupedFinancials localeCompare customRegulations globalModel
                                accounts in
    let st' := groupedFinancials localeCompare customRegulations globalModel
                                 (map opposite accounts) in
    (assetsTotal st' == - assetsTotal st)%Q
    /\ (liabilitiesTotal st' == - liabilitiesTotal st)%Q
    /\ (equityTotal st' == - equityTotal st)%Q
    /\ (revenueTotal st' == - revenueTotal st)%Q
    /\ (expenseTotal st' == - expenseTotal st)%Q
    /\ (netResult st' == netResult st)%Q
    /\ (inconsistencies Number_toString (map opposite accounts) = []
        <-> inconsistencies Number_toString accounts = []).
Proof.
  intros lc nts cr gm accounts st st'. unfold st, st', groupedFinancials.
  cbn [assetsTotal liabilitiesTotal equityTotal revenueTotal expenseTotal
       netResult].
  repeat (split; [apply section_total_opposite|]).
  split.
  - rewrite !section_total_opposite, !Qabs_opp. reflexivity.
  - assert (E : (Qabs (grandTotal (map opposite accounts))
                 == Qabs (grandTotal accounts))%Q).
    { unfold grandTotal. rewrite !sum_by_total_of.
      rewrite filter_map_comm.
      rewrite (filter_ext (fun a => negb (AccountLine.isGroup (opposite a)))
                          (fun a => negb (AccountLine.isGroup a)))
        by (intros a; now destruct a).
      rewrite total_of_opposite. apply Qabs_opp. }
    unfold inconsistencies.
    destruct (Qlt_le_dec 1 (Qabs (grandTotal (map opposite accounts)))) as [H|H],
             (Qlt_le_dec 1 (Qabs (grandTotal accounts))) as [H'|H'];
      try (split; [discriminate | discriminate]); try tauto.
    + rewrite E in H. exfalso. apply (Qlt_not_le _ _ H H').
    + rewrite <- E in H'. exfalso. apply (Qlt_not_le _ _ H' H).
Qed.

(* ================================================================== *)
(** * Instances of the properties that have a premise *)
(* ================================================================== *)

Lemma handleManualEdit_balanced_witness :
  Forall balanced ledger
  /\ Forall balanced (handleManualEdit "a1" (f_debit 15) ledger).
Proof.
  assert (H : Forall balanced ledger)
    by (unfold ledger; repeat constructor; reflexivity).
  split; [exact H|].
  apply (handleManualEdit_balanced "a1" (f_debit 15) ledger);
    [intros v; discriminate | exact H].
Defined.

Lemma lines_beyond_500_witness :
  (forall item, In item [secondThoughts] ->
                In (item_id item)
                   (map summary_id (accountList (repeat minus25 501))))
  /\ List.length (accountList (repeat minus25 501)) = 500%nat.
Proof.
  assert (H : forall item, In item [secondThoughts] ->
                           In (item_id item)
                              (map summary_id (accountList (repeat minus25 501)))).
  { intros item [<-|[]]. left. reflexivity. }
  split; [exact H|].
  exact (proj1 (lines_beyond_500 nat counter (repeat minus25 501)
                                 [secondThoughts] 0%nat H)).
Defined.

Lemma last_answer_counts_witness :
  exists line,
    nth_error (fst (classifyAccounts nat counter rawLines
                      (Some (answer ++ [secondThoughts])%list) 0%nat)) 0
    = Some line
    /\ AccountLine.type line = AccountType.LIABILITY
    /\ AccountLine.category line = "Deudas"
    /\ AccountLine.isGroup line = false.
Proof.
  refine (last_answer_counts nat counter rawLines answer [] secondThoughts
                             0%nat 0%nat _ eq_refl eq_refl _).
  intros it [].
Defined.

Lemma short_regulations_witness :
  activeLogic (Some "NIIF") None = activeLogic None None
  /\ activeLogic None (Some "NIIF") = activeLogic None None
  /\ hasCustomModel (Some "NIIF") None = true
  /\ hasCustomModel None (Some "NIIF") = true.
Proof.
  apply (short_regulations "NIIF" None); [discriminate | vm_compute; lia].
Defined.

Lemma dropped_characters_witness :
  dropped "," = true
  /\ parseNumber integerPart (Str "1,200") = parseNumber integerPart (Str "1200").
Proof.
  split; [reflexivity|].
  exact (proj1 (dropped_characters integerPart "1" "200" "," eq_refl)).
Defined.

Lemma minus_counts_in_front_witness :
  (parseNumber integerPart (Str "-25") == - parseNumber integerPart (Str "25"))%Q
  /\ parseNumber integerPart (Str "25-") = parseNumber integerPart (Str "25")
  /\ parseNumber integerPart (Str "(25)") = parseNumber integerPart (Str "25")
  /\ (0 <= parseNumber integerPart (Str "25"))%Q.
Proof.
  apply (minus_counts_in_front integerPart "25"); [reflexivity | discriminate].
Defined.

Lemma ledger_wholeAmounts : wholeAmounts (detailLines ledger).
Proof.
  split.
  - repeat constructor; eexists; reflexivity.
  - vm_compute. discriminate.
Defined.

Lemma section_totals_from_lines_witness :
  groupedFinancialsCompletes ledger = true
  /\ wholeAmounts (detailLines ledger)
  /\ (assetsTotal (groupedFinancials ordinalCompare None None ledger)
      == total_of (map AccountLine.balance (filtered ledger AccountType.ASSET)))%Q.
Proof.
  refine (conj eq_refl (conj ledger_wholeAmounts _)).
  exact (proj1 (section_totals_from_lines ordinalCompare None None ledger
                                          eq_refl ledger_wholeAmounts)).
Defined.

Lemma grandTotal_of_sections_witness :
  groupedFinancialsCompletes ledger = true
  /\ wholeAmounts (detailLines ledger)
  /\ strayLines ledger = []
  /\ (grandTotal ledger
      == assetsTotal (groupedFinancials ordinalCompare None None ledger)
         + liabilitiesTotal (groupedFinancials ordinalCompare None None ledger)
         + equityTotal (groupedFinancials ordinalCompare None None ledger)
         + revenueTotal (groupedFinancials ordinalCompare None None ledger)
         + expenseTotal (groupedFinancials ordinalCompare None None ledger))%Q.
Proof.
  refine (conj eq_refl (conj ledger_wholeAmounts (conj eq_refl _))).
  exact (proj1 (proj2 (grandTotal_of_sections ordinalCompare None None ledger
                                              eq_refl ledger_wholeAmounts))
               eq_refl).
Defined.

Lemma sections_hold_lines_witness :
  completes ledger AccountType.ASSET = true
  /\ Forall (fun g => Group.accounts g <> [])
            (groupByTypeAndCategory ordinalCompare None None ledger
                                    AccountType.ASSET).
Proof.
  split; [reflexivity|].
  exact (proj1 (sections_hold_lines ordinalCompare None None ledger
                                    AccountType.ASSET eq_refl)).
Defined.


Lemma numeral_round_trip_witness :
  (1200 <= 9007199254740992)%N
  /\ (parseNumber integerPart (Str "1200") == 1200)%Q
  /\ (parseNumber integerPart (Str "-1200") == - (1200))%Q.
Proof.
  assert (H : (1200 <= 9007199254740992)%N) by (vm_compute; discriminate).
  split; [exact H|].
  destruct (numeral_round_trip integerPart 1200%N H) as [A [B _]].
  split; [exact A | exact B].
Defined.

Lemma first_point_counts_witness :
  parseNumber integerPart (Str "1.234.567") = parseNumber integerPart (Str "1.234")
  /\ parseNumber integerPart (Str "1.234-567") = parseNumber integerPart (Str "1.234").
Proof.
  apply (first_point_counts integerPart "1" "234" "567"); reflexivity.
Defined.

Lemma handleCreateClient_then_save_witness :
  (forall c, In c [demoClient] -> ClientData.id c <> fst (counter 2))
  /\ App.handleSubmit nat counter [demoClient] "" "20-1" "Agro" "2024" 2%nat = None.
Proof.
  assert (H : forall c, In c [demoClient] -> ClientData.id c <> fst (counter 2)).
  { intros c [<-|[]]. discriminate. }
  split; [exact H|].
  apply (handleCreateClient_then_save nat counter [demoClient]
                                      "" "20-1" "Agro" "2024" 2%nat H).
Defined.

Lemma import_counts_one_file_witness :
  exists updatedClient,
    saved (fst (handleFinancialUpload nat counter demoClient []
                  "balance.xlsx" "xlsx" "t1" "t2"
                  (Some rawLines) (Some answer) 0%nat))
    = Some updatedClient
    /\ App.processedFiles (fst (App.saveClientData [demoClient] updatedClient))
       = S (App.processedFiles [demoClient]).
Proof.
  eexists. split; [reflexivity|].
  apply (import_counts_one_file nat counter [] [] demoClient []
                                "balance.xlsx" "xlsx" "t1" "t2"
                                (Some rawLines) (Some answer) 0%nat).
  - repeat constructor. intros [].
  - reflexivity.
Defined.
